(** * The cube state and move engine of the Rubik's cube demo

    The program verified here is the script of [demo.html], printed in
    full in TECHNICAL_DOCUMENTATION.md (section 3).  It keeps the facelet
    colours of the cube in one global object [cubeState], permutes them
    with [applyMoveToCubeState], and decides solvedness with
    [checkSolved].  The handlers [scrambleCube], [solveCube], [resetCube]
    and [applyMove] drive these from the buttons of the page.

    The handlers are [async] only to pace the animation; every one of
    them returns at once while [isAnimating] is set, so their bodies never
    interleave and are modelled as plain functions on the globals. *)

From Stdlib Require Import ZArith String List Bool Lia Permutation.
From stdpp Require Import base list.
Import ListNotations.
Open Scope string_scope.
Open Scope list_scope.

(** ** JavaScript values and arrays *)

(** What an array slot of the program can hold: a number, [null] (what
    a JSON round trip leaves for a missing entry) or [undefined] (what
    a read past the end gives). *)
Inductive jsval : Type :=
  | Num (n : Z)
  | Null
  | Undefined.

(** [a !== b] negated: strict equality of two slots. *)
Definition strict_eq (a b : jsval) : bool :=
  match a, b with
  | Num x, Num y => Z.eqb x y
  | Null, Null => true
  | Undefined, Undefined => true
  | _, _ => false
  end.

Definition array : Type := list jsval.

(** [a[i]]: a read past the end yields [undefined]. *)
Definition aget (a : array) (i : nat) : jsval :=
  match a !! i with
  | Some v => v
  | None => Undefined
  end.

(** [a[i] = v]: a write past the end extends the array, the skipped
    slots reading as [undefined]. *)
Definition aset (a : array) (i : nat) (v : jsval) : array :=
  if Nat.ltb i (List.length a) then <[i := v]> a
  else a ++ replicate (i - List.length a) Undefined ++ [v].

(** [a.slice(b, e)] for [0 <= b <= e]. *)
Definition slice (a : array) (b e : nat) : array := take (e - b) (drop b a).

(** [Array(n).fill(v)]. *)
Definition fill (n : nat) (v : jsval) : array := replicate n v.

(** [JSON.parse(JSON.stringify(a))] on an array: numbers survive,
    [undefined] and [null] entries both come back as [null]. *)
Definition jsonCopyArray (a : array) : array :=
  map (fun v => match v with Num n => Num n | _ => Null end) a.

(** ** The cube state *)

(** The six keys of [cubeState], in the order the object literal lists
    them (which is the order [for ... in] visits them). *)
Inductive faceName : Type := U | D | F | B | R | L.

Definition faceNames : list faceName := [U; D; F; B; R; L].

(** The object [{'U': ..., 'D': ..., 'F': ..., 'B': ..., 'R': ..., 'L': ...}]. *)
Record cube : Type := Cube {
  faceU : array;
  faceD : array;
  faceF : array;
  faceB : array;
  faceR : array;
  faceL : array
}.

(** [cubeState[faceName]]. *)
Definition face (s : cube) (f : faceName) : array :=
  match f with
  | U => faceU s | D => faceD s | F => faceF s
  | B => faceB s | R => faceR s | L => faceL s
  end.

(** [s[faceName] = a]. *)
Definition setFace (f : faceName) (a : array) (s : cube) : cube :=
  match f with
  | U => Cube a (faceD s) (faceF s) (faceB s) (faceR s) (faceL s)
  | D => Cube (faceU s) a (faceF s) (faceB s) (faceR s) (faceL s)
  | F => Cube (faceU s) (faceD s) a (faceB s) (faceR s) (faceL s)
  | B => Cube (faceU s) (faceD s) (faceF s) a (faceR s) (faceL s)
  | R => Cube (faceU s) (faceD s) (faceF s) (faceB s) a (faceL s)
  | L => Cube (faceU s) (faceD s) (faceF s) (faceB s) (faceR s) a
  end.

(** [s[f][i]] and [s[f][i] = v]. *)
Definition rd (s : cube) (f : faceName) (i : nat) : jsval := aget (face s f) i.

Definition wr (f : faceName) (i : nat) (v : jsval) (s : cube) : cube :=
  setFace f (aset (face s f) i v) s.

(** [JSON.parse(JSON.stringify(cubeState))], the deep copy. *)
Definition jsonCopy (s : cube) : cube :=
  Cube (jsonCopyArray (faceU s)) (jsonCopyArray (faceD s))
       (jsonCopyArray (faceF s)) (jsonCopyArray (faceB s))
       (jsonCopyArray (faceR s)) (jsonCopyArray (faceL s)).

(** The initial value of [cubeState], which [resetCube] restores and
    [checkSolved] compares against. *)
Definition solvedState : cube :=
  Cube (fill 9 (Num 0)) (fill 9 (Num 1)) (fill 9 (Num 2))
       (fill 9 (Num 3)) (fill 9 (Num 4)) (fill 9 (Num 5)).

(** ** The move engine *)

Definition rotateFaceletArrayClockwise (faceArray : array) : array :=
  let newFace := fill 9 (Num 0) in
  let newFace := aset newFace 0 (aget faceArray 6) in
  let newFace := aset newFace 1 (aget faceArray 3) in
  let newFace := aset newFace 2 (aget faceArray 0) in
  let newFace := aset newFace 3 (aget faceArray 7) in
  let newFace := aset newFace 4 (aget faceArray 4) in
  let newFace := aset newFace 5 (aget faceArray 1) in
  let newFace := aset newFace 6 (aget faceArray 8) in
  let newFace := aset newFace 7 (aget faceArray 5) in
  let newFace := aset newFace 8 (aget faceArray 2) in
  newFace.

Definition rotateFaceletArrayCounterClockwise (faceArray : array) : array :=
  let newFace := fill 9 (Num 0) in
  let newFace := aset newFace 0 (aget faceArray 2) in
  let newFace := aset newFace 1 (aget faceArray 5) in
  let newFace := aset newFace 2 (aget faceArray 8) in
  let newFace := aset newFace 3 (aget faceArray 1) in
  let newFace := aset newFace 4 (aget faceArray 4) in
  let newFace := aset newFace 5 (aget faceArray 7) in
  let newFace := aset newFace 6 (aget faceArray 0) in
  let newFace := aset newFace 7 (aget faceArray 3) in
  let newFace := aset newFace 8 (aget faceArray 6) in
  newFace.

(** The twelve cases of the [switch] in [applyMoveToCubeState].  Each
    takes the state before the move ([cubeState], read only) and the
    deep copy being built ([newState]).  Three assignments of the printed
    source carry a stray apostrophe after the index ([5'] in case R',
    [3'] in cases F and F'); they are read as the indices 5 and 3. *)

(** [case 'U'] of the switch (source lines of this case start at 1352). *)
Definition case_U (cubeState newState : cube) : cube :=
  let newState := setFace U (rotateFaceletArrayClockwise (face cubeState U)) newState in
  (* Permute adjacent edges (F, R, B, L) *)
  let tempU := slice (face cubeState F) 0 3 in
  let newState := wr F 0 (rd cubeState R 0) newState in
  let newState := wr F 1 (rd cubeState R 1) newState in
  let newState := wr F 2 (rd cubeState R 2) newState in
  let newState := wr R 0 (rd cubeState B 0) newState in
  let newState := wr R 1 (rd cubeState B 1) newState in
  let newState := wr R 2 (rd cubeState B 2) newState in
  let newState := wr B 0 (rd cubeState L 0) newState in
  let newState := wr B 1 (rd cubeState L 1) newState in
  let newState := wr B 2 (rd cubeState L 2) newState in
  let newState := wr L 0 (aget tempU 0) newState in
  let newState := wr L 1 (aget tempU 1) newState in
  let newState := wr L 2 (aget tempU 2) newState in
  newState.

(** [case 'U''] of the switch (source lines of this case start at 1372). *)
Definition case_U' (cubeState newState : cube) : cube :=
  let newState := setFace U (rotateFaceletArrayCounterClockwise (face cubeState U)) newState in
  (* Permute adjacent edges (F, L, B, R) *)
  let tempUPrime := slice (face cubeState F) 0 3 in
  let newState := wr F 0 (rd cubeState L 0) newState in
  let newState := wr F 1 (rd cubeState L 1) newState in
  let newState := wr F 2 (rd cubeState L 2) newState in
  let newState := wr L 0 (rd cubeState B 0) newState in
  let newState := wr L 1 (rd cubeState B 1) newState in
  let newState := wr L 2 (rd cubeState B 2) newState in
  let newState := wr B 0 (rd cubeState R 0) newState in
  let newState := wr B 1 (rd cubeState R 1) newState in
  let newState := wr B 2 (rd cubeState R 2) newState in
  let newState := wr R 0 (aget tempUPrime 0) newState in
  let newState := wr R 1 (aget tempUPrime 1) newState in
  let newState := wr R 2 (aget tempUPrime 2) newState in
  newState.

(** [case 'D'] of the switch (source lines of this case start at 1392). *)
Definition case_D (cubeState newState : cube) : cube :=
  let newState := setFace D (rotateFaceletArrayClockwise (face cubeState D)) newState in
  (* Permute adjacent edges (F, L, B, R) - bottom row *)
  let tempD := slice (face cubeState F) 6 9 in
  let newState := wr F 6 (rd cubeState L 6) newState in
  let newState := wr F 7 (rd cubeState L 7) newState in
  let newState := wr F 8 (rd cubeState L 8) newState in
  let newState := wr L 6 (rd cubeState B 6) newState in
  let newState := wr L 7 (rd cubeState B 7) newState in
  let newState := wr L 8 (rd cubeState B 8) newState in
  let newState := wr B 6 (rd cubeState R 6) newState in
  let newState := wr B 7 (rd cubeState R 7) newState in
  let newState := wr B 8 (rd cubeState R 8) newState in
  let newState := wr R 6 (aget tempD 0) newState in
  let newState := wr R 7 (aget tempD 1) newState in
  let newState := wr R 8 (aget tempD 2) newState in
  newState.

(** [case 'D''] of the switch (source lines of this case start at 1412). *)
Definition case_D' (cubeState newState : cube) : cube :=
  let newState := setFace D (rotateFaceletArrayCounterClockwise (face cubeState D)) newState in
  (* Permute adjacent edges (F, R, B, L) - bottom row *)
  let tempDPrime := slice (face cubeState F) 6 9 in
  let newState := wr F 6 (rd cubeState R 6) newState in
  let newState := wr F 7 (rd cubeState R 7) newState in
  let newState := wr F 8 (rd cubeState R 8) newState in
  let newState := wr R 6 (rd cubeState B 6) newState in
  let newState := wr R 7 (rd cubeState B 7) newState in
  let newState := wr R 8 (rd cubeState B 8) newState in
  let newState := wr B 6 (rd cubeState L 6) newState in
  let newState := wr B 7 (rd cubeState L 7) newState in
  let newState := wr B 8 (rd cubeState L 8) newState in
  let newState := wr L 6 (aget tempDPrime 0) newState in
  let newState := wr L 7 (aget tempDPrime 1) newState in
  let newState := wr L 8 (aget tempDPrime 2) newState in
  newState.

(** [case 'R'] of the switch (source lines of this case start at 1432). *)
Definition case_R (cubeState newState : cube) : cube :=
  let newState := setFace R (rotateFaceletArrayClockwise (face cubeState R)) newState in
  (* Permute adjacent edges (U, B, D, F) - right column *)
  let tempR := [rd cubeState F 2; rd cubeState F 5; rd cubeState F 8] in
  let newState := wr F 2 (rd cubeState D 2) newState in
  let newState := wr F 5 (rd cubeState D 5) newState in
  let newState := wr F 8 (rd cubeState D 8) newState in
  let newState := wr D 2 (rd cubeState B 6) newState in
  let newState := wr D 5 (rd cubeState B 3) newState in
  let newState := wr D 8 (rd cubeState B 0) newState in
  let newState := wr B 0 (rd cubeState U 8) newState in
  let newState := wr B 3 (rd cubeState U 5) newState in
  let newState := wr B 6 (rd cubeState U 2) newState in
  let newState := wr U 2 (aget tempR 0) newState in
  let newState := wr U 5 (aget tempR 1) newState in
  let newState := wr U 8 (aget tempR 2) newState in
  newState.

(** [case 'R''] of the switch (source lines of this case start at 1452). *)
Definition case_R' (cubeState newState : cube) : cube :=
  let newState := setFace R (rotateFaceletArrayCounterClockwise (face cubeState R)) newState in
  (* Permute adjacent edges (U, F, D, B) - right column *)
  let tempRPrime := [rd cubeState F 2; rd cubeState F 5; rd cubeState F 8] in
  let newState := wr F 2 (rd cubeState U 2) newState in
  let newState := wr F 5 (rd cubeState U 5) newState in
  let newState := wr F 8 (rd cubeState U 8) newState in
  let newState := wr U 2 (rd cubeState B 6) newState in
  let newState := wr U 5 (rd cubeState B 3) newState in
  let newState := wr U 8 (rd cubeState B 0) newState in
  let newState := wr B 0 (rd cubeState D 8) newState in
  let newState := wr B 3 (rd cubeState D 5) newState in
  let newState := wr B 6 (rd cubeState D 2) newState in
  let newState := wr D 2 (aget tempRPrime 0) newState in
  let newState := wr D 5 (aget tempRPrime 1) newState in
  let newState := wr D 8 (aget tempRPrime 2) newState in
  newState.

(** [case 'L'] of the switch (source lines of this case start at 1472). *)
Definition case_L (cubeState newState : cube) : cube :=
  let newState := setFace L (rotateFaceletArrayClockwise (face cubeState L)) newState in
  (* Permute adjacent edges (U, F, D, B) - left column *)
  let tempL := [rd cubeState F 0; rd cubeState F 3; rd cubeState F 6] in
  let newState := wr F 0 (rd cubeState U 0) newState in
  let newState := wr F 3 (rd cubeState U 3) newState in
  let newState := wr F 6 (rd cubeState U 6) newState in
  let newState := wr U 0 (rd cubeState B 8) newState in
  let newState := wr U 3 (rd cubeState B 5) newState in
  let newState := wr U 6 (rd cubeState B 2) newState in
  let newState := wr B 2 (rd cubeState D 6) newState in
  let newState := wr B 5 (rd cubeState D 3) newState in
  let newState := wr B 8 (rd cubeState D 0) newState in
  let newState := wr D 0 (aget tempL 0) newState in
  let newState := wr D 3 (aget tempL 1) newState in
  let newState := wr D 6 (aget tempL 2) newState in
  newState.

(** [case 'L''] of the switch (source lines of this case start at 1492). *)
Definition case_L' (cubeState newState : cube) : cube :=
  let newState := setFace L (rotateFaceletArrayCounterClockwise (face cubeState L)) newState in
  (* Permute adjacent edges (U, B, D, F) - left column *)
  let tempLPrime := [rd cubeState F 0; rd cubeState F 3; rd cubeState F 6] in
  let newState := wr F 0 (rd cubeState D 0) newState in
  let newState := wr F 3 (rd cubeState D 3) newState in
  let newState := wr F 6 (rd cubeState D 6) newState in
  let newState := wr D 0 (rd cubeState B 8) newState in
  let newState := wr D 3 (rd cubeState B 5) newState in
  let newState := wr D 6 (rd cubeState B 2) newState in
  let newState := wr B 2 (rd cubeState U 6) newState in
  let newState := wr B 5 (rd cubeState U 3) newState in
  let newState := wr B 8 (rd cubeState U 0) newState in
  let newState := wr U 0 (aget tempLPrime 0) newState in
  let newState := wr U 3 (aget tempLPrime 1) newState in
  let newState := wr U 6 (aget tempLPrime 2) newState in
  newState.

(** [case 'F'] of the switch (source lines of this case start at 1512). *)
Definition case_F (cubeState newState : cube) : cube :=
  let newState := setFace F (rotateFaceletArrayClockwise (face cubeState F)) newState in
  (* Permute adjacent edges (U, R, D, L) - front edges *)
  let tempF := [rd cubeState U 6; rd cubeState U 7; rd cubeState U 8] in
  let newState := wr U 6 (rd cubeState L 8) newState in
  let newState := wr U 7 (rd cubeState L 5) newState in
  let newState := wr U 8 (rd cubeState L 2) newState in
  let newState := wr L 2 (rd cubeState D 0) newState in
  let newState := wr L 5 (rd cubeState D 1) newState in
  let newState := wr L 8 (rd cubeState D 2) newState in
  let newState := wr D 0 (rd cubeState R 6) newState in
  let newState := wr D 1 (rd cubeState R 3) newState in
  let newState := wr D 2 (rd cubeState R 0) newState in
  let newState := wr R 0 (aget tempF 0) newState in
  let newState := wr R 3 (aget tempF 1) newState in
  let newState := wr R 6 (aget tempF 2) newState in
  newState.

(** [case 'F''] of the switch (source lines of this case start at 1532). *)
Definition case_F' (cubeState newState : cube) : cube :=
  let newState := setFace F (rotateFaceletArrayCounterClockwise (face cubeState F)) newState in
  (* Permute adjacent edges (U, L, D, R) - front edges *)
  let tempFPrime := [rd cubeState U 6; rd cubeState U 7; rd cubeState U 8] in
  let newState := wr U 6 (rd cubeState R 0) newState in
  let newState := wr U 7 (rd cubeState R 3) newState in
  let newState := wr U 8 (rd cubeState R 6) newState in
  let newState := wr R 0 (rd cubeState D 2) newState in
  let newState := wr R 3 (rd cubeState D 1) newState in
  let newState := wr R 6 (rd cubeState D 0) newState in
  let newState := wr D 0 (rd cubeState L 2) newState in
  let newState := wr D 1 (rd cubeState L 5) newState in
  let newState := wr D 2 (rd cubeState L 8) newState in
  let newState := wr L 2 (aget tempFPrime 2) newState in
  let newState := wr L 5 (aget tempFPrime 1) newState in
  let newState := wr L 8 (aget tempFPrime 0) newState in
  newState.

(** [case 'B'] of the switch (source lines of this case start at 1552). *)
Definition case_B (cubeState newState : cube) : cube :=
  let newState := setFace B (rotateFaceletArrayClockwise (face cubeState B)) newState in
  (* Permute adjacent edges (U, L, D, R) - back edges *)
  let tempB := [rd cubeState U 0; rd cubeState U 1; rd cubeState U 2] in
  let newState := wr U 0 (rd cubeState R 2) newState in
  let newState := wr U 1 (rd cubeState R 5) newState in
  let newState := wr U 2 (rd cubeState R 8) newState in
  let newState := wr R 2 (rd cubeState D 8) newState in
  let newState := wr R 5 (rd cubeState D 7) newState in
  let newState := wr R 8 (rd cubeState D 6) newState in
  let newState := wr D 6 (rd cubeState L 0) newState in
  let newState := wr D 7 (rd cubeState L 3) newState in
  let newState := wr D 8 (rd cubeState L 6) newState in
  let newState := wr L 0 (aget tempB 2) newState in
  let newState := wr L 3 (aget tempB 1) newState in
  let newState := wr L 6 (aget tempB 0) newState in
  newState.

(** [case 'B''] of the switch (source lines of this case start at 1572). *)
Definition case_B' (cubeState newState : cube) : cube :=
  let newState := setFace B (rotateFaceletArrayCounterClockwise (face cubeState B)) newState in
  (* Permute adjacent edges (U, R, D, L) - back edges *)
  let tempBPrime := [rd cubeState U 0; rd cubeState U 1; rd cubeState U 2] in
  let newState := wr U 0 (rd cubeState L 6) newState in
  let newState := wr U 1 (rd cubeState L 3) newState in
  let newState := wr U 2 (rd cubeState L 0) newState in
  let newState := wr L 0 (rd cubeState D 6) newState in
  let newState := wr L 3 (rd cubeState D 7) newState in
  let newState := wr L 6 (rd cubeState D 8) newState in
  let newState := wr D 6 (rd cubeState R 8) newState in
  let newState := wr D 7 (rd cubeState R 5) newState in
  let newState := wr D 8 (rd cubeState R 2) newState in
  let newState := wr R 2 (aget tempBPrime 0) newState in
  let newState := wr R 5 (aget tempBPrime 1) newState in
  let newState := wr R 8 (aget tempBPrime 2) newState in
  newState.

(** [applyMoveToCubeState(move)]: the new value of the global
    [cubeState].  The [switch] has no [default]: for any other string
    the deep copy is stored as it is. *)
Definition applyMoveToCubeState (move : string) (cubeState : cube) : cube :=
  let newState := jsonCopy cubeState in
  if String.eqb move "U" then case_U cubeState newState
  else if String.eqb move "U'" then case_U' cubeState newState
  else if String.eqb move "D" then case_D cubeState newState
  else if String.eqb move "D'" then case_D' cubeState newState
  else if String.eqb move "R" then case_R cubeState newState
  else if String.eqb move "R'" then case_R' cubeState newState
  else if String.eqb move "L" then case_L cubeState newState
  else if String.eqb move "L'" then case_L' cubeState newState
  else if String.eqb move "F" then case_F cubeState newState
  else if String.eqb move "F'" then case_F' cubeState newState
  else if String.eqb move "B" then case_B cubeState newState
  else if String.eqb move "B'" then case_B' cubeState newState
  else newState.

(** [checkSolved()]: every one of the first nine slots of every face is
    compared with the same slot of the solved state; the first mismatch
    returns [false]. *)
Definition checkSolved (cubeState : cube) : bool :=
  let solvedState :=
    Cube (fill 9 (Num 0)) (fill 9 (Num 1)) (fill 9 (Num 2))
         (fill 9 (Num 3)) (fill 9 (Num 4)) (fill 9 (Num 5)) in
  forallb (fun faceName =>
    forallb (fun i =>
      strict_eq (aget (face cubeState faceName) i)
                (aget (face solvedState faceName) i))
      (seq 0 9))
    faceNames.

(** ** The page's globals and button handlers *)

(** The globals the handlers read and write (the Three.js objects hold
    no cube logic and are left out). *)
Record globals : Type := Globals {
  cubeState : cube;
  moveHistory : list string;
  isSolved : bool;
  isAnimating : bool
}.

(** The globals as the script initialises them. *)
Definition initialGlobals : globals :=
  {| cubeState := solvedState; moveHistory := []; isSolved := true;
     isAnimating := false |}.

(** One round of the replay loops of [scrambleCube] and [solveCube]:
    [moveHistory.push(move); ...; applyMoveToCubeState(move)]. *)
Definition replayStep (g : globals) (move : string) : globals :=
  {| cubeState := applyMoveToCubeState move (cubeState g);
     moveHistory := moveHistory g ++ [move];
     isSolved := isSolved g;
     isAnimating := isAnimating g |}.

Definition scrambleSequence : list string :=
  ["R"; "U"; "R'"; "U'"; "F"; "R"; "F'"; "R'"; "U"; "R"; "U'"; "R'";
   "F'"; "U'"; "F"].

Definition scrambleCube (g : globals) : globals :=
  if isAnimating g then g
  else
    let g := {| cubeState := cubeState g; moveHistory := [];
                isSolved := false; isAnimating := true |} in
    let g := fold_left replayStep scrambleSequence g in
    {| cubeState := cubeState g; moveHistory := moveHistory g;
       isSolved := checkSolved (cubeState g); isAnimating := false |}.

(** [solutionSequence] of [solveCube]: the array literal, reversed. *)
Definition solutionSequence : list string :=
  rev ["F'"; "U"; "F"; "R"; "U"; "R'"; "U"; "R"; "F"; "R'"; "F'"; "U";
       "R"; "U'"; "R'"; "F'"; "U'"; "F"].

Definition solveCube (g : globals) : globals :=
  if isAnimating g || isSolved g then g
  else
    let g := {| cubeState := cubeState g; moveHistory := moveHistory g;
                isSolved := isSolved g; isAnimating := true |} in
    let g := fold_left replayStep solutionSequence g in
    {| cubeState := cubeState g; moveHistory := moveHistory g;
       isSolved := checkSolved (cubeState g); isAnimating := false |}.

Definition resetCube (g : globals) : globals :=
  if isAnimating g then g
  else
    {| cubeState :=
         Cube (fill 9 (Num 0)) (fill 9 (Num 1)) (fill 9 (Num 2))
              (fill 9 (Num 3)) (fill 9 (Num 4)) (fill 9 (Num 5));
       moveHistory := [];
       isSolved := true;
       isAnimating := isAnimating g |}.

Definition applyMove (move : string) (g : globals) : globals :=
  if isAnimating g then g
  else
    {| cubeState := applyMoveToCubeState move (cubeState g);
       moveHistory := moveHistory g ++ [move];
       isSolved := checkSolved (applyMoveToCubeState move (cubeState g));
       isAnimating := false |}.

(** How a call ends: it returns, or it throws an error of some name. *)
Inductive completion (A : Type) : Type :=
  | Returns (a : A)
  | Throws (error : string).
Arguments Returns {A} a.
Arguments Throws {A} error.

(** Neither [applyMoveToCubeState] nor [applyMove], nor any helper they
    call, contains a [throw]; on a [cube] every face is an array, so no
    property access can fail either.  Both calls therefore return. *)
Definition call_applyMoveToCubeState (move : string) (s : cube)
  : completion cube :=
  Returns (applyMoveToCubeState move s).

Definition call_applyMove (move : string) (g : globals)
  : completion globals :=
  Returns (applyMove move g).

(** ** Vocabulary of the specification *)

(** The twelve move symbols: the strings the move buttons of the page
    pass to [applyMove], listed as [basicMoves] in the control panel. *)
Definition basicMoves : list string :=
  ["U"; "U'"; "D"; "D'"; "R"; "R'"; "L"; "L'"; "F"; "F'"; "B"; "B'"].

(** The inverse of a move symbol, as the specification defines it: the
    primed symbol for an unprimed one and back. *)
Definition inverseMove (m : string) : string :=
  if String.eqb m "U" then "U'" else if String.eqb m "U'" then "U"
  else if String.eqb m "D" then "D'" else if String.eqb m "D'" then "D"
  else if String.eqb m "R" then "R'" else if String.eqb m "R'" then "R"
  else if String.eqb m "L" then "L'" else if String.eqb m "L'" then "L"
  else if String.eqb m "F" then "F'" else if String.eqb m "F'" then "F"
  else if String.eqb m "B" then "B'" else if String.eqb m "B'" then "B"
  else m.

(** Applying a sequence of moves in order. *)
Definition applyMoves (ms : list string) (s : cube) : cube :=
  fold_left (fun s m => applyMoveToCubeState m s) ms s.

(** A state as the data model describes it: six faces of nine numbers. *)
Definition isNum (v : jsval) : bool :=
  match v with Num _ => true | _ => false end.

Definition isFace (a : array) : bool :=
  Nat.eqb (List.length a) 9 && forallb isNum a.

Definition wellFormed (s : cube) : bool :=
  forallb (fun f => isFace (face s f)) faceNames.

(** The legal states: those reachable from the solved state by the
    twelve moves. *)
Inductive legal : cube -> Prop :=
  | legal_solved : legal solvedState
  | legal_move (m : string) (s : cube) :
      In m basicMoves -> legal s -> legal (applyMoveToCubeState m s).

(** The 54 facelets of a state, face by face. *)
Definition facelets (s : cube) : list jsval :=
  faceU s ++ faceD s ++ faceF s ++ faceB s ++ faceR s ++ faceL s.

(** How many facelets carry colour [c]. *)
Definition countColor (c : Z) (s : cube) : nat :=
  List.length (List.filter (fun v => strict_eq v (Num c)) (facelets s)).

Definition colorIndices : list Z := [0; 1; 2; 3; 4; 5]%Z.

(** Each colour index appears exactly nine times. *)
Definition colorBalanced (s : cube) : Prop :=
  Forall (fun c => countColor c s = 9) colorIndices.

(** The specification's solvedness: every facelet of every face equals
    that face's centre (slot 4). *)
Definition facesMatchCenters (s : cube) : Prop :=
  forall (f : faceName) (i : nat),
    i < 9 -> aget (face s f) i = aget (face s f) 4.

(** The centres carry the colours the program assigns to the faces. *)
Definition standardCenters (s : cube) : Prop :=
  forall f : faceName, aget (face s f) 4 = aget (face solvedState f) 4.

(** Every facelet is one of the six colour indices. *)
Definition isColor (v : jsval) : bool :=
  match v with
  | Num c => Z.leb 0 c && Z.leb c 5
  | _ => false
  end.

Definition hasColorIndices (s : cube) : bool := forallb isColor (facelets s).

(** A state whose faces are each of one colour, with the colours of the
    Up and Down faces exchanged. *)
Definition swappedState : cube :=
  Cube (fill 9 (Num 1)) (fill 9 (Num 0)) (fill 9 (Num 2))
       (fill 9 (Num 3)) (fill 9 (Num 4)) (fill 9 (Num 5)).

(** ** Further vocabulary *)

(** The face a move symbol turns, read off its first character as
    [animateMoveVisual] does with [move[0]]. *)
Definition moveFace (move : string) : option faceName :=
  let c := substring 0 1 move in
  if String.eqb c "U" then Some U
  else if String.eqb c "D" then Some D
  else if String.eqb c "R" then Some R
  else if String.eqb c "L" then Some L
  else if String.eqb c "F" then Some F
  else if String.eqb c "B" then Some B
  else None.

(** Opposite faces of the cube. *)
Definition oppositeFace (f : faceName) : faceName :=
  match f with
  | U => D | D => U | F => B | B => F | R => L | L => R
  end.

(** Pairs of move symbols that turn opposite faces. *)
Definition oppositeMoves : list (string * string) :=
  list_prod ["U"; "U'"] ["D"; "D'"] ++
  list_prod ["R"; "R'"] ["L"; "L'"] ++
  list_prod ["F"; "F'"] ["B"; "B'"].

(** Each face cut down to its first nine slots. *)
Definition firstNine (s : cube) : cube :=
  Cube (take 9 (faceU s)) (take 9 (faceD s)) (take 9 (faceF s))
       (take 9 (faceB s)) (take 9 (faceR s)) (take 9 (faceL s)).

(** ** Button presses *)

(** What the user can do on the page: the three action buttons, and a
    call of [applyMove] with some string (the move buttons pass the
    twelve symbols of [basicMoves]). *)
Inductive event : Type :=
  | PressScramble
  | PressSolve
  | PressReset
  | PressMove (move : string).

Definition handle (g : globals) (e : event) : globals :=
  match e with
  | PressScramble => scrambleCube g
  | PressSolve => solveCube g
  | PressReset => resetCube g
  | PressMove move => applyMove move g
  end.

(** The globals after a series of presses on the freshly loaded page. *)
Definition afterEvents (es : list event) : globals :=
  fold_left handle es initialGlobals.

(** The move history replays to the cube state from the solved state. *)
Definition historyReplays (g : globals) : Prop :=
  cubeState g = applyMoves (moveHistory g) solvedState.

(** What holds of the globals between two button presses. *)
Definition pageInvariant (g : globals) : Prop :=
  isAnimating g = false /\
  isSolved g = checkSolved (cubeState g) /\
  legal (cubeState g).

(** ** The scene: pieces, materials and their colours *)

(** [COLORS_MAP[v]]: the hexadecimal colour of a colour index, and
    [undefined] (here [None]) for any other key. *)
Definition COLORS_MAP (v : jsval) : option Z :=
  match v with
  | Num 0 => Some 0xffffff%Z
  | Num 1 => Some 0xffff00%Z
  | Num 2 => Some 0xff0000%Z
  | Num 3 => Some 0xff8000%Z
  | Num 4 => Some 0x00ff00%Z
  | Num 5 => Some 0x0000ff%Z
  | _ => None
  end.

(** The three values each piece coordinate runs through. *)
Definition axis : list Z := [-1; 0; 1]%Z.

(** A cube piece (a [THREE.Mesh]): its [material] array, whose entries
    are references to material objects, and the coordinates kept in
    [userData]. *)
Record mesh : Type := Mesh {
  material : list nat;
  userData : Z * Z * Z
}.

(** The material objects (a reference is a position in [materials],
    the entry is the material's colour) and the global [cubePieces]. *)
Record scene : Type := Scene {
  materials : list Z;
  cubePieces : list mesh
}.

(** [createRubiksCubePieces()].  It is called once, from [initThreeJS],
    when no material exists yet.  [Array(6).fill(new Material(...))]
    creates one material object and stores the reference to it in all six
    entries of the array. *)
Definition createRubiksCubePieces : scene :=
  fold_left (fun sc x =>
    fold_left (fun sc y =>
      fold_left (fun sc z =>
        if (x =? 0)%Z && (y =? 0)%Z && (z =? 0)%Z then sc
        else
          let newMaterial := List.length (materials sc) in
          let cubePiece := Mesh (replicate 6 newMaterial) (x, y, z) in
          Scene (materials sc ++ [0x333333%Z]) (cubePieces sc ++ [cubePiece]))
        axis sc)
      axis sc)
    axis (Scene [] []).

(** [a[i]] for an index computed as a number. *)
Definition agetZ (a : array) (i : Z) : jsval :=
  if (i <? 0)%Z then Undefined else aget a (Z.to_nat i).

(** The [faceletIndex] formulas of [updateCubeColors], one per face. *)
Definition faceletIndex (f : faceName) (x y z : Z) : Z :=
  match f with
  | U => (1 - z) * 3 + (x + 1)
  | D => (z + 1) * 3 + (x + 1)
  | F => (1 - y) * 3 + (x + 1)
  | B => (1 - y) * 3 + (1 - x)
  | R => (1 - y) * 3 + (1 - z)
  | L => (1 - y) * 3 + (z + 1)
  end%Z.

(** The test that guards the painting of each face in
    [updateCubeColors]: does the piece lie on that face? *)
Definition onFace (f : faceName) (x y z : Z) : bool :=
  match f with
  | U => (y =? 1)%Z
  | D => (y =? -1)%Z
  | F => (z =? 1)%Z
  | B => (z =? -1)%Z
  | R => (x =? 1)%Z
  | L => (x =? -1)%Z
  end.

(** The position in the material array of the side that shows each
    face (0 right, 1 left, 2 top, 3 bottom, 4 front, 5 back). *)
Definition sideOf (f : faceName) : nat :=
  match f with
  | R => 0 | L => 1 | U => 2 | D => 3 | F => 4 | B => 5
  end.

(** [mat.color.set(value)]: a number sets the colour; [undefined]
    leaves it as it is. *)
Definition colorSet (heap : list Z) (mat : nat) (value : option Z) : list Z :=
  match value with
  | Some hex => <[mat := hex]> heap
  | None => heap
  end.

(** [materials[k].color.set(value)]; [None] when [materials[k]] is
    missing (the call would throw). *)
Definition paintSide (mats : list nat) (k : nat) (value : option Z)
    (heap : list Z) : option (list Z) :=
  mat ← mats !! k; Some (colorSet heap mat value).

(** One [if] of the body of [updateCubeColors]. *)
Definition paintFace (cubeState : cube) (f : faceName) (piece : mesh)
    (heap : list Z) : option (list Z) :=
  let '(x, y, z) := userData piece in
  if onFace f x y z then
    let index := faceletIndex f x y z in
    paintSide (material piece) (sideOf f)
      (COLORS_MAP (agetZ (face cubeState f) index)) heap
  else Some heap.

(** The body of the [forEach] of [updateCubeColors] for one piece: all
    its materials are set to the dark colour, then the six faces are
    painted in the order U, D, F, B, R, L. *)
Definition updatePiece (cubeState : cube) (heap : list Z) (piece : mesh)
    : option (list Z) :=
  let heap :=
    fold_left (fun heap mat => colorSet heap mat (Some 0x333333%Z))
              (material piece) heap in
  heap ← paintFace cubeState U piece heap;
  heap ← paintFace cubeState D piece heap;
  heap ← paintFace cubeState F piece heap;
  heap ← paintFace cubeState B piece heap;
  heap ← paintFace cubeState R piece heap;
  paintFace cubeState L piece heap.

Fixpoint updatePieces (cubeState : cube) (pieces : list mesh)
    (heap : list Z) : option (list Z) :=
  match pieces with
  | [] => Some heap
  | piece :: rest =>
      heap ← updatePiece cubeState heap piece;
      updatePieces cubeState rest heap
  end.

(** [updateCubeColors()]. *)
Definition updateCubeColors (cubeState : cube) (sc : scene) : option scene :=
  heap ← updatePieces cubeState (cubePieces sc) (materials sc);
  Some (Scene heap (cubePieces sc)).

(** The colour side [k] of a piece is drawn in. *)
Definition sideColor (sc : scene) (piece : mesh) (k : nat) : option Z :=
  mat ← material piece !! k; materials sc !! mat.

(** The last face, in the painting order U, D, F, B, R, L, that a piece
    at [(x, y, z)] lies on. *)
Definition lastFace (x y z : Z) : option faceName :=
  if (x =? -1)%Z then Some L
  else if (x =? 1)%Z then Some R
  else if (z =? -1)%Z then Some B
  else if (z =? 1)%Z then Some F
  else if (y =? -1)%Z then Some D
  else if (y =? 1)%Z then Some U
  else None.

(** A piece as [createRubiksCubePieces] makes them: its coordinates are
    taken from [axis] and are not all zero, and the six entries of its
    material array are the one material [m], which exists in [heap]. *)
Definition pieceOf (heap : list Z) (m : nat) (piece : mesh) : Prop :=
  exists x y z : Z,
    userData piece = (x, y, z) /\
    In x axis /\ In y axis /\ In z axis /\
    lastFace x y z <> None /\
    material piece = replicate 6 m /\
    m < List.length heap.

(** The colour [updateCubeColors] looks up for face [f] of the piece at
    [(x, y, z)]. *)
Definition faceletColor (s : cube) (f : faceName) (x y z : Z) : option Z :=
  COLORS_MAP (agetZ (face s f) (faceletIndex f x y z)).

(** The scene [createRubiksCubePieces] builds, evaluated. *)
Definition createdScene : scene := Eval vm_compute in createRubiksCubePieces.

(** ** The React viewer *)

(** What [generateCubePieces] of [RubiksCube3D] passes to a [CubePiece]:
    the coordinates (they make up its [key] and, scaled, its position) and
    the array [colors], an entry of which is [null] (here [None]) or a
    colour index. *)
Record cubePieceProps : Type := CubePieceProps {
  pieceKey : Z * Z * Z;
  colors : list (option Z)
}.

(** [colors[k] = c] on the six-entry array. *)
Definition setColor (k : nat) (c : Z) (colors : list (option Z))
    : list (option Z) :=
  <[k := Some c]> colors.

(** [generateCubePieces()]; the component receives [cubeState] as a
    property. *)
Definition generateCubePieces (cubeState : cube) : list cubePieceProps :=
  fold_left (fun pieces x =>
    fold_left (fun pieces y =>
      fold_left (fun pieces z =>
        if (x =? 0)%Z && (y =? 0)%Z && (z =? 0)%Z then pieces
        else
          let colors := [None; None; None; None; None; None] in
          let colors := if (x =? 1)%Z then setColor 0 4 colors else colors in
          let colors := if (x =? -1)%Z then setColor 1 5 colors else colors in
          let colors := if (y =? 1)%Z then setColor 2 0 colors else colors in
          let colors := if (y =? -1)%Z then setColor 3 1 colors else colors in
          let colors := if (z =? 1)%Z then setColor 4 2 colors else colors in
          let colors := if (z =? -1)%Z then setColor 5 3 colors else colors in
          pieces ++ [CubePieceProps (x, y, z) colors])
        axis pieces)
      axis pieces)
    axis [].

(** The stickers a list of pieces carries. *)
Definition stickers (pieces : list cubePieceProps) : list Z :=
  omap id (concat (map colors pieces)).

(** ** Move sequence reduction (documentation, Algorithm Optimization) *)

(** The inner loop of [optimize_move_sequence]:
    [while i + count < len(moves) and moves[i + count] == current_move:
     count += 1].  [None] when the fuel runs out. *)
Fixpoint countRun (fuel : nat) (moves : list string) (i : nat)
    (current_move : string) (count : nat) : option nat :=
  match fuel with
  | O => None
  | S fuel =>
      if Nat.ltb (i + count) (List.length moves) &&
         match moves !! (i + count) with
         | Some move => String.eqb move current_move
         | None => false
         end
      then countRun fuel moves i current_move (count + 1)
      else Some count
  end.

(** The [if]/[elif] chain on [count % 4]. *)
Definition reduceRun (optimized : list string) (current_move : string)
    (count : nat) : list string :=
  if Nat.eqb (count mod 4) 1 then optimized ++ [current_move]
  else if Nat.eqb (count mod 4) 2 then optimized ++ [String.append current_move "2"]
  else if Nat.eqb (count mod 4) 3 then optimized ++ [String.append current_move "'"]
  else optimized.

(** The outer loop, [while i < len(moves): ...].  [None] when the fuel
    runs out (or [moves[i]] is out of range, which the loop test
    excludes). *)
Fixpoint optimizeLoop (fuel : nat) (moves : list string) (i : nat)
    (optimized : list string) : option (list string) :=
  match fuel with
  | O => None
  | S fuel =>
      if Nat.ltb i (List.length moves) then
        current_move ← moves !! i;
        count ← countRun (S (List.length moves)) moves i current_move 1;
        let optimized := reduceRun optimized current_move count in
        optimizeLoop fuel moves (i + count) optimized
      else Some optimized
  end.

(** [optimize_move_sequence(moves)]. *)
Definition optimize_move_sequence (moves : list string)
    : option (list string) :=
  optimizeLoop (S (List.length moves)) moves 0 [].

(** No move is followed by an equal move. *)
Definition noRepeat (moves : list string) : Prop :=
  forall (i : nat) (a b : string),
    moves !! i = Some a -> moves !! (S i) = Some b -> a <> b.

(** ** The Python class of the documentation *)

(** A face of [RubiksCube.faces]: a list of rows of colour indices. *)
Definition grid : Type := list (list Z).

(** [self.faces], the dictionary with the keys U, D, F, B, R, L. *)
Record RubiksCube : Type := PyCube {
  facesU : grid;
  facesD : grid;
  facesF : grid;
  facesB : grid;
  facesR : grid;
  facesL : grid
}.

(** [face[r][c]]; [None] stands for the [IndexError] of an index past
    the end. *)
Definition cell (face : grid) (r c : nat) : option Z :=
  row ← face !! r; row !! c.

(** [rotate_face_clockwise(face)]:
    [[[face[2-j][i] for j in range(3)] for i in range(3)]]. *)
Definition rotate_face_clockwise (face : grid) : option grid :=
  mapM (fun i => mapM (fun j => cell face (2 - j) i) [0; 1; 2]) [0; 1; 2].



(** The loop of [is_solved] over the faces still to visit: the first
    colour that differs from the centre [face[1][1]] of its face returns
    [False]. *)
Fixpoint is_solved_faces (faces : list grid) : option bool :=
  match faces with
  | [] => Some true
  | face :: rest =>
      center_color ← cell face 1 1;
      if forallb (fun row => forallb (fun color => Z.eqb color center_color) row)
                 face
      then is_solved_faces rest
      else Some false
  end.

(** [is_solved(self)]. *)
Definition is_solved (self : RubiksCube) : option bool :=
  is_solved_faces [facesU self; facesD self; facesF self; facesB self;
                   facesR self; facesL self].

(** A face of three rows of three colours. *)
Definition isGrid (face : grid) : bool :=
  Nat.eqb (List.length face) 3 &&
  forallb (fun row => Nat.eqb (List.length row) 3) face.

Definition wellFormedPy (self : RubiksCube) : bool :=
  isGrid (facesU self) && isGrid (facesD self) && isGrid (facesF self) &&
  isGrid (facesB self) && isGrid (facesR self) && isGrid (facesL self).

(** A face read row by row, as the nine-slot array of the page. *)
Definition rowMajor (face : grid) : array := map Num (concat face).

(** The state of the page that a Python cube stands for. *)
Definition toCubeState (self : RubiksCube) : cube :=
  Cube (rowMajor (facesU self)) (rowMajor (facesD self))
       (rowMajor (facesF self)) (rowMajor (facesB self))
       (rowMajor (facesR self)) (rowMajor (facesL self)).

(** [RubiksCube()]: the faces [__init__] installs. *)
Definition newRubiksCube : RubiksCube :=
  (PyCube [[0; 0; 0]; [0; 0; 0]; [0; 0; 0]] [[1; 1; 1]; [1; 1; 1]; [1; 1; 1]]
          [[2; 2; 2]; [2; 2; 2]; [2; 2; 2]] [[3; 3; 3]; [3; 3; 3]; [3; 3; 3]]
          [[4; 4; 4]; [4; 4; 4]; [4; 4; 4]] [[5; 5; 5]; [5; 5; 5]; [5; 5; 5]])%Z.

(** * Properties *)

(** ** Well-formed states have a canonical shape *)

Lemma isFace_inv (a : array) :
  isFace a = true ->
  exists c0 c1 c2 c3 c4 c5 c6 c7 c8 : Z,
    a = [Num c0; Num c1; Num c2; Num c3; Num c4; Num c5; Num c6; Num c7; Num c8].
Proof.
  unfold isFace. intros H. apply andb_prop in H. destruct H as [Hlen Hnum].
  apply Nat.eqb_eq in Hlen.
  do 9 (destruct a as [|[?| |] a]; [discriminate Hlen | | discriminate Hnum | discriminate Hnum];
        simpl in Hnum).
  destruct a; [|discriminate Hlen].
  do 9 eexists. reflexivity.
Qed.

Lemma wellFormed_faces (s : cube) :
  wellFormed s = true ->
  isFace (faceU s) = true /\ isFace (faceD s) = true /\
  isFace (faceF s) = true /\ isFace (faceB s) = true /\
  isFace (faceR s) = true /\ isFace (faceL s) = true.
Proof.
  unfold wellFormed. simpl. rewrite !andb_true_iff. tauto.
Qed.

(** Replace a well-formed [s] by six explicit nine-element faces. *)
Ltac canonical s H :=
  let Hu := fresh in let Hd := fresh in let Hf := fresh in
  let Hb := fresh in let Hr := fresh in let Hl := fresh in
  apply wellFormed_faces in H;
  destruct H as (Hu & Hd & Hf & Hb & Hr & Hl);
  destruct s as [? ? ? ? ? ?]; simpl in Hu, Hd, Hf, Hb, Hr, Hl;
  apply isFace_inv in Hu; apply isFace_inv in Hd; apply isFace_inv in Hf;
  apply isFace_inv in Hb; apply isFace_inv in Hr; apply isFace_inv in Hl;
  destruct Hu as (? & ? & ? & ? & ? & ? & ? & ? & ? & ->);
  destruct Hd as (? & ? & ? & ? & ? & ? & ? & ? & ? & ->);
  destruct Hf as (? & ? & ? & ? & ? & ? & ? & ? & ? & ->);
  destruct Hb as (? & ? & ? & ? & ? & ? & ? & ? & ? & ->);
  destruct Hr as (? & ? & ? & ? & ? & ? & ? & ? & ? & ->);
  destruct Hl as (? & ? & ? & ? & ? & ? & ? & ? & ? & ->).

(** Split membership in [basicMoves] into its twelve cases. *)
Ltac each_move H :=
  unfold basicMoves in H; simpl in H;
  repeat (destruct H as [<- | H]); [.. | contradiction H].

Lemma wellFormed_solvedState : wellFormed solvedState = true.
Proof. reflexivity. Qed.

(** Whatever the string, the move engine maps well-formed states to
    well-formed states. *)
Lemma wellFormed_applyMove (m : string) (s : cube) :
  wellFormed s = true -> wellFormed (applyMoveToCubeState m s) = true.
Proof.
  intros H. canonical s H. unfold applyMoveToCubeState.
  repeat (match goal with |- context [String.eqb ?a ?b] => destruct (String.eqb a b) end;
          [reflexivity|]).
  reflexivity.
Qed.

Lemma legal_wellFormed (s : cube) : legal s -> wellFormed s = true.
Proof.
  induction 1 as [|m s _ _ IH].
  - exact wellFormed_solvedState.
  - apply wellFormed_applyMove, IH.
Qed.

(** The inverse law on every well-formed state. *)
Lemma inverse_law_wellFormed (m : string) (s : cube) :
  wellFormed s = true -> In m basicMoves ->
  applyMoveToCubeState (inverseMove m) (applyMoveToCubeState m s) = s.
Proof.
  intros H Hm. canonical s H. each_move Hm; reflexivity.
Qed.

Lemma order4_wellFormed (m : string) (s : cube) :
  wellFormed s = true -> In m basicMoves ->
  applyMoves [m; m; m; m] s = s.
Proof.
  intros H Hm. canonical s H. each_move Hm; reflexivity.
Qed.

(** ** The solved-state check *)

Lemma strict_eq_true_iff (a b : jsval) : strict_eq a b = true <-> a = b.
Proof.
  destruct a as [x| |], b as [y| |]; simpl; split; intros H;
    try reflexivity; try discriminate H.
  - apply Z.eqb_eq in H. now subst.
  - injection H as ->. apply Z.eqb_refl.
Qed.

(** [checkSolved] holds exactly when the first nine slots of every face
    agree with the solved state. *)
Lemma checkSolved_spec (s : cube) :
  checkSolved s = true <->
  forall (f : faceName) (i : nat),
    i < 9 -> aget (face s f) i = aget (face solvedState f) i.
Proof.
  unfold checkSolved. fold solvedState. rewrite forallb_forall. split.
  - intros H f i Hi.
    assert (Hf : In f faceNames) by (destruct f; simpl; tauto).
    specialize (H f Hf). rewrite forallb_forall in H.
    apply strict_eq_true_iff, H, in_seq. lia.
  - intros H f _. rewrite forallb_forall. intros i Hi.
    apply in_seq in Hi. apply strict_eq_true_iff, H. lia.
Qed.

Lemma solvedState_uniform (f : faceName) (i : nat) :
  i < 9 -> aget (face solvedState f) i = aget (face solvedState f) 4.
Proof.
  intros Hi.
  do 9 (destruct i as [|i]; [destruct f; reflexivity|]). lia.
Qed.

(** ** Moves permute the facelets *)

(** [split_at x r] finds the first [x] in the list term [r] and returns
    what stands before and after it. *)
Ltac split_at x r :=
  lazymatch r with
  | x :: ?post => constr:((@nil jsval, post))
  | ?y :: ?r' =>
      let p := split_at x r' in
      lazymatch p with
      | (?pre, ?post) => constr:((y :: pre, post))
      end
  end.

(** Proves [Permutation l r] for two explicit lists of the same atoms,
    one element of [l] at a time. *)
Ltac permute_explicit :=
  repeat lazymatch goal with
    | |- Permutation [] [] => apply perm_nil
    | |- Permutation (?x :: _) (?x :: _) => apply perm_skip
    | |- Permutation (?x :: _) ?r =>
        let p := split_at x r in
        lazymatch p with
        | (?pre, ?post) =>
            apply (Permutation_cons_app pre post x); cbn [app]
        end
    end.

Lemma facelets_applyMove (m : string) (s : cube) :
  wellFormed s = true ->
  Permutation (facelets (applyMoveToCubeState m s)) (facelets s).
Proof.
  intros H. canonical s H. unfold applyMoveToCubeState.
  repeat (match goal with |- context [String.eqb ?a ?b] => destruct (String.eqb a b) end;
          [cbv; permute_explicit|]).
  cbv. reflexivity.
Qed.

Lemma countColor_Permutation (c : Z) (l1 l2 : list jsval) :
  Permutation l1 l2 ->
  List.length (List.filter (fun v => strict_eq v (Num c)) l1) =
  List.length (List.filter (fun v => strict_eq v (Num c)) l2).
Proof.
  induction 1 as [|x l1 l2 _ IH|x y l|l1 l2 l3 _ IH1 _ IH2]; simpl.
  - reflexivity.
  - destruct (strict_eq x (Num c)); simpl; now rewrite IH.
  - destruct (strict_eq x (Num c)), (strict_eq y (Num c)); reflexivity.
  - now rewrite IH1.
Qed.

Lemma countColor_applyMove (c : Z) (m : string) (s : cube) :
  wellFormed s = true ->
  countColor c (applyMoveToCubeState m s) = countColor c s.
Proof.
  intros H. unfold countColor.
  apply countColor_Permutation, facelets_applyMove, H.
Qed.

(** ** Strings that are not move symbols *)

Lemma jsonCopy_wellFormed (s : cube) : wellFormed s = true -> jsonCopy s = s.
Proof. intros H. canonical s H. reflexivity. Qed.

Lemma applyMove_not_basic (m : string) (s : cube) :
  ~ In m basicMoves -> applyMoveToCubeState m s = jsonCopy s.
Proof.
  intros Hm. unfold applyMoveToCubeState.
  repeat (match goal with
          | |- context [String.eqb m ?b] =>
              destruct (String.eqb_spec m b) as [->|_];
              [exfalso; apply Hm; simpl; tauto|]
          end).
  reflexivity.
Qed.

(** ** What the intended solution would have been *)

(** Undoing the scramble move by move, last move first, does restore the
    solved state: the move engine is not at fault for the failed solve. *)
Lemma inverse_of_scramble_solves :
  applyMoves (map inverseMove (rev scrambleSequence))
             (applyMoves scrambleSequence solvedState) = solvedState.
Proof. reflexivity. Qed.

(** * The claims *)

(** ** Scramble, then solve *)

(** C1. Claimed: from the solved state, the scramble sequence followed by
    the replay of the solution sequence of [solveCube] ends in a state
    that [checkSolved] accepts.  The program does not do this: after
    [scrambleCube] and [solveCube] the check fails, the Solved flag stays
    off, and the Up face reads 3 5 4 2 0 5 2 4 1. *)
Theorem scramble_then_solveCube_unsolved :
  let g := solveCube (scrambleCube initialGlobals) in
  checkSolved (cubeState g) = false /\
  isSolved g = false /\
  cubeState g = applyMoves solutionSequence
                  (applyMoves scrambleSequence solvedState) /\
  faceU (cubeState g) =
    [Num 3; Num 5; Num 4; Num 2; Num 0; Num 5; Num 2; Num 4; Num 1].
Proof. cbv zeta. split; [|split; [|split]]; vm_compute; reflexivity. Qed.

(** ** Laws of the move engine *)

(** C2. On every legal state, a move followed by its inverse move gives
    back the state, for each of the twelve move symbols. *)
Theorem inverse_law (s : cube) (m : string) :
  legal s -> In m basicMoves ->
  applyMoveToCubeState (inverseMove m) (applyMoveToCubeState m s) = s.
Proof.
  intros Hs Hm. apply inverse_law_wellFormed; [|exact Hm].
  apply legal_wellFormed, Hs.
Qed.

Lemma inverse_law_witness :
  legal (applyMoveToCubeState "R" solvedState) /\ In "F'" basicMoves /\
  applyMoveToCubeState (inverseMove "F'")
    (applyMoveToCubeState "F'" (applyMoveToCubeState "R" solvedState)) =
  applyMoveToCubeState "R" solvedState.
Proof.
  assert (Hs : legal (applyMoveToCubeState "R" solvedState)).
  { apply legal_move; [simpl; tauto | apply legal_solved]. }
  assert (Hm : In "F'" basicMoves) by (simpl; tauto).
  split; [exact Hs | split; [exact Hm |]].
  exact (inverse_law (applyMoveToCubeState "R" solvedState) "F'" Hs Hm).
Defined.

(** C3. On every legal state, each of the twelve moves applied four
    times in a row gives back the state. *)
Theorem order_four_law (s : cube) (m : string) :
  legal s -> In m basicMoves ->
  applyMoveToCubeState m
    (applyMoveToCubeState m
       (applyMoveToCubeState m (applyMoveToCubeState m s))) = s.
Proof.
  intros Hs Hm.
  apply (order4_wellFormed m s); [|exact Hm].
  apply legal_wellFormed, Hs.
Qed.

Lemma order_four_law_witness :
  legal (applyMoveToCubeState "U" solvedState) /\ In "B" basicMoves /\
  applyMoveToCubeState "B"
    (applyMoveToCubeState "B"
       (applyMoveToCubeState "B"
          (applyMoveToCubeState "B" (applyMoveToCubeState "U" solvedState)))) =
  applyMoveToCubeState "U" solvedState.
Proof.
  assert (Hs : legal (applyMoveToCubeState "U" solvedState)).
  { apply legal_move; [simpl; tauto | apply legal_solved]. }
  assert (Hm : In "B" basicMoves) by (simpl; tauto).
  split; [exact Hs | split; [exact Hm |]].
  exact (order_four_law (applyMoveToCubeState "U" solvedState) "B" Hs Hm).
Defined.

(** ** The solved-state check *)

(** C4, as claimed, fails: [swappedState] has six faces of nine colour
    indices, every face matches its own centre, and [checkSolved]
    rejects it. *)
Lemma checkSolved_not_center_relative :
  wellFormed swappedState = true /\
  hasColorIndices swappedState = true /\
  facesMatchCenters swappedState /\
  checkSolved swappedState = false.
Proof.
  split; [reflexivity|]. split; [reflexivity|]. split; [|reflexivity].
  intros f i Hi.
  do 9 (destruct i as [|i]; [destruct f; reflexivity|]). lia.
Qed.

(** C4, amended. On every state whose six centres carry the colours the
    program assigns to the faces, [checkSolved] holds if and only if
    every facelet of every face equals its face's centre. *)
Theorem checkSolved_iff_facesMatchCenters (s : cube) :
  standardCenters s ->
  (checkSolved s = true <-> facesMatchCenters s).
Proof.
  intros Hc. rewrite checkSolved_spec. unfold facesMatchCenters. split.
  - intros H f i Hi.
    rewrite (H f i Hi), (Hc f). apply solvedState_uniform, Hi.
  - intros H f i Hi.
    rewrite (H f i Hi), (Hc f). symmetry. apply solvedState_uniform, Hi.
Qed.

Lemma checkSolved_iff_facesMatchCenters_witness :
  standardCenters (applyMoveToCubeState "R" solvedState) /\
  (checkSolved (applyMoveToCubeState "R" solvedState) = true <->
   facesMatchCenters (applyMoveToCubeState "R" solvedState)).
Proof.
  assert (Hc : standardCenters (applyMoveToCubeState "R" solvedState)).
  { intros f. destruct f; reflexivity. }
  split; [exact Hc|].
  exact (checkSolved_iff_facesMatchCenters
           (applyMoveToCubeState "R" solvedState) Hc).
Defined.

(** C9. On a state of six faces of nine numbers, [checkSolved] holds if
    and only if the state is the fixed solved configuration (Up all 0,
    Down all 1, Front all 2, Back all 3, Right all 4, Left all 5). *)
Theorem checkSolved_iff_solvedState (s : cube) :
  wellFormed s = true ->
  (checkSolved s = true <-> s = solvedState).
Proof.
  intros H. canonical s H. split.
  - intros E. cbn in E. rewrite !andb_true_iff, !Z.eqb_eq in E.
    decompose [and] E. subst. reflexivity.
  - intros E. rewrite E. reflexivity.
Qed.

Lemma checkSolved_iff_solvedState_witness :
  wellFormed swappedState = true /\
  (checkSolved swappedState = true <-> swappedState = solvedState).
Proof.
  split; [reflexivity|].
  exact (checkSolved_iff_solvedState swappedState eq_refl).
Defined.

(** ** Strings that are not move symbols *)

(** C5, as claimed, fails: the string X is none of the twelve move
    symbols, yet the move engine returns (with the state as it was) and
    [applyMove] returns too, having recorded X in the move history; no
    error of any name is thrown. *)
Lemma invalid_move_signals_nothing :
  ~ In "X" basicMoves /\
  call_applyMoveToCubeState "X" solvedState = Returns solvedState /\
  call_applyMoveToCubeState "X" solvedState <> Throws "InvalidMoveError" /\
  call_applyMove "X" initialGlobals <> Throws "InvalidMoveError" /\
  moveHistory (applyMove "X" initialGlobals) = ["X"].
Proof.
  split; [|split; [|split; [|split]]].
  - simpl. intros H. repeat (destruct H as [H|H]; [discriminate H|]). exact H.
  - reflexivity.
  - discriminate.
  - discriminate.
  - reflexivity.
Qed.

(** C5, amended. A string that is not one of the twelve move symbols
    leaves the facelet state as it was, and nothing is signalled: the move
    engine returns the same state, and [applyMove] returns after appending
    the string to the move history and re-running [checkSolved]. *)
Theorem invalid_move_ignored (m : string) (g : globals) :
  wellFormed (cubeState g) = true ->
  ~ In m basicMoves ->
  isAnimating g = false ->
  call_applyMoveToCubeState m (cubeState g) = Returns (cubeState g) /\
  call_applyMove m g =
    Returns {| cubeState := cubeState g;
               moveHistory := moveHistory g ++ [m];
               isSolved := checkSolved (cubeState g);
               isAnimating := false |}.
Proof.
  intros Hwf Hm Ha.
  assert (E : applyMoveToCubeState m (cubeState g) = cubeState g).
  { rewrite (applyMove_not_basic m (cubeState g) Hm).
    apply jsonCopy_wellFormed, Hwf. }
  unfold call_applyMoveToCubeState, call_applyMove, applyMove.
  rewrite Ha, E. split; reflexivity.
Qed.

Lemma invalid_move_ignored_witness :
  wellFormed (cubeState initialGlobals) = true /\
  ~ In "X" basicMoves /\
  isAnimating initialGlobals = false /\
  call_applyMoveToCubeState "X" (cubeState initialGlobals) =
    Returns (cubeState initialGlobals) /\
  call_applyMove "X" initialGlobals =
    Returns {| cubeState := cubeState initialGlobals;
               moveHistory := moveHistory initialGlobals ++ ["X"];
               isSolved := checkSolved (cubeState initialGlobals);
               isAnimating := false |}.
Proof.
  assert (Hm : ~ In "X" basicMoves).
  { simpl. intros H. repeat (destruct H as [H|H]; [discriminate H|]). exact H. }
  split; [reflexivity | split; [exact Hm | split; [reflexivity |]]].
  exact (invalid_move_ignored "X" initialGlobals eq_refl Hm eq_refl).
Defined.

(** ** Invariants of the move engine *)

(** C6. If each colour index 0 to 5 appears exactly nine times among the
    54 facelets of a state, it does so again after any of the twelve
    moves. *)
Theorem move_preserves_color_counts (s : cube) (m : string) :
  wellFormed s = true ->
  colorBalanced s ->
  In m basicMoves ->
  colorBalanced (applyMoveToCubeState m s).
Proof.
  intros Hwf Hb _. unfold colorBalanced in *.
  induction Hb as [|c cs Hc _ IH]; constructor.
  - rewrite (countColor_applyMove c m s Hwf). exact Hc.
  - exact IH.
Qed.

Lemma move_preserves_color_counts_witness :
  wellFormed (applyMoveToCubeState "F" solvedState) = true /\
  colorBalanced (applyMoveToCubeState "F" solvedState) /\
  In "L'" basicMoves /\
  colorBalanced
    (applyMoveToCubeState "L'" (applyMoveToCubeState "F" solvedState)).
Proof.
  assert (Hb : colorBalanced (applyMoveToCubeState "F" solvedState)).
  { unfold colorBalanced, colorIndices. repeat constructor. }
  assert (Hm : In "L'" basicMoves) by (simpl; tauto).
  split; [reflexivity | split; [exact Hb | split; [exact Hm |]]].
  exact (move_preserves_color_counts
           (applyMoveToCubeState "F" solvedState) "L'" eq_refl Hb Hm).
Defined.

(** C7. None of the twelve moves changes the centre facelet (slot 4) of
    any of the six faces. *)
Theorem move_preserves_centers (s : cube) (m : string) (f : faceName) :
  wellFormed s = true ->
  In m basicMoves ->
  aget (face (applyMoveToCubeState m s) f) 4 = aget (face s f) 4.
Proof.
  intros H Hm. canonical s H. each_move Hm; destruct f; reflexivity.
Qed.

Lemma move_preserves_centers_witness :
  wellFormed swappedState = true /\
  In "R'" basicMoves /\
  aget (face (applyMoveToCubeState "R'" swappedState) B) 4 =
  aget (face swappedState B) 4.
Proof.
  assert (Hm : In "R'" basicMoves) by (simpl; tauto).
  split; [reflexivity | split; [exact Hm |]].
  exact (move_preserves_centers swappedState "R'" B eq_refl Hm).
Defined.

(** ** The solved state *)

(** C8. The state the script starts with, which is also the state
    [resetCube] installs, passes [checkSolved], is flagged solved, and has
    Up all 0, Down all 1, Front all 2, Back all 3, Right all 4 and Left
    all 5. *)
Theorem reset_state_solved (g : globals) :
  isAnimating g = false ->
  cubeState (resetCube g) = cubeState initialGlobals /\
  isSolved (resetCube g) = true /\
  isSolved initialGlobals = true /\
  checkSolved (cubeState (resetCube g)) = true /\
  faceU (cubeState (resetCube g)) = replicate 9 (Num 0) /\
  faceD (cubeState (resetCube g)) = replicate 9 (Num 1) /\
  faceF (cubeState (resetCube g)) = replicate 9 (Num 2) /\
  faceB (cubeState (resetCube g)) = replicate 9 (Num 3) /\
  faceR (cubeState (resetCube g)) = replicate 9 (Num 4) /\
  faceL (cubeState (resetCube g)) = replicate 9 (Num 5).
Proof.
  intros Ha. unfold resetCube. rewrite Ha. simpl.
  split; [|split; [|split; [|split; [|split; [|split; [|split; [|split; [|split]]]]]]]];
    reflexivity.
Qed.

Lemma reset_state_solved_witness :
  isAnimating (scrambleCube initialGlobals) = false /\
  (cubeState (resetCube (scrambleCube initialGlobals)) = cubeState initialGlobals /\
   isSolved (resetCube (scrambleCube initialGlobals)) = true /\
   isSolved initialGlobals = true /\
   checkSolved (cubeState (resetCube (scrambleCube initialGlobals))) = true /\
   faceU (cubeState (resetCube (scrambleCube initialGlobals))) = replicate 9 (Num 0) /\
   faceD (cubeState (resetCube (scrambleCube initialGlobals))) = replicate 9 (Num 1) /\
   faceF (cubeState (resetCube (scrambleCube initialGlobals))) = replicate 9 (Num 2) /\
   faceB (cubeState (resetCube (scrambleCube initialGlobals))) = replicate 9 (Num 3) /\
   faceR (cubeState (resetCube (scrambleCube initialGlobals))) = replicate 9 (Num 4) /\
   faceL (cubeState (resetCube (scrambleCube initialGlobals))) = replicate 9 (Num 5)).
Proof.
  split; [reflexivity|].
  exact (reset_state_solved (scrambleCube initialGlobals) eq_refl).
Defined.

(** ** The frame of the move U *)

(** C10. The move U leaves the whole Down face and slots 3 to 8 of the
    Front, Right, Back and Left faces as they were. *)
Theorem move_U_frame (s : cube) :
  wellFormed s = true ->
  faceD (applyMoveToCubeState "U" s) = faceD s /\
  drop 3 (faceF (applyMoveToCubeState "U" s)) = drop 3 (faceF s) /\
  drop 3 (faceR (applyMoveToCubeState "U" s)) = drop 3 (faceR s) /\
  drop 3 (faceB (applyMoveToCubeState "U" s)) = drop 3 (faceB s) /\
  drop 3 (faceL (applyMoveToCubeState "U" s)) = drop 3 (faceL s).
Proof.
  intros H. canonical s H.
  split; [|split; [|split; [|split]]]; reflexivity.
Qed.

Lemma move_U_frame_witness :
  wellFormed (applyMoves scrambleSequence solvedState) = true /\
  (faceD (applyMoveToCubeState "U" (applyMoves scrambleSequence solvedState)) =
     faceD (applyMoves scrambleSequence solvedState) /\
   drop 3 (faceF (applyMoveToCubeState "U" (applyMoves scrambleSequence solvedState))) =
     drop 3 (faceF (applyMoves scrambleSequence solvedState)) /\
   drop 3 (faceR (applyMoveToCubeState "U" (applyMoves scrambleSequence solvedState))) =
     drop 3 (faceR (applyMoves scrambleSequence solvedState)) /\
   drop 3 (faceB (applyMoveToCubeState "U" (applyMoves scrambleSequence solvedState))) =
     drop 3 (faceB (applyMoves scrambleSequence solvedState)) /\
   drop 3 (faceL (applyMoveToCubeState "U" (applyMoves scrambleSequence solvedState))) =
     drop 3 (faceL (applyMoves scrambleSequence solvedState))).
Proof.
  split; [vm_compute; reflexivity|].
  exact (move_U_frame (applyMoves scrambleSequence solvedState) eq_refl).
Defined.

(** * Further properties of the code *)

(** ** The two face rotations *)

(** Replace an array of nine slots by nine explicit values. *)
Ltac nine_slots a H :=
  do 9 (destruct a as [|? a]; [discriminate H|]);
  destruct a; [clear H | discriminate H].

(** X1. On an array of nine slots, whatever they hold, the two
    rotations undo each other. *)
Theorem rotate_round_trip (a : array) :
  List.length a = 9 ->
  rotateFaceletArrayCounterClockwise (rotateFaceletArrayClockwise a) = a /\
  rotateFaceletArrayClockwise (rotateFaceletArrayCounterClockwise a) = a.
Proof. intros H. nine_slots a H. split; reflexivity. Qed.

Lemma rotate_round_trip_witness :
  List.length (faceR (applyMoves scrambleSequence solvedState)) = 9 /\
  (rotateFaceletArrayCounterClockwise
     (rotateFaceletArrayClockwise
        (faceR (applyMoves scrambleSequence solvedState))) =
   faceR (applyMoves scrambleSequence solvedState) /\
   rotateFaceletArrayClockwise
     (rotateFaceletArrayCounterClockwise
        (faceR (applyMoves scrambleSequence solvedState))) =
   faceR (applyMoves scrambleSequence solvedState)).
Proof.
  split; [vm_compute; reflexivity|].
  exact (rotate_round_trip (faceR (applyMoves scrambleSequence solvedState)) eq_refl).
Defined.

(** X2. On an array of nine slots, four clockwise rotations give the
    array back, two clockwise rotations equal two counter-clockwise
    ones, and three clockwise rotations equal one counter-clockwise. *)
Theorem rotate_powers (a : array) :
  List.length a = 9 ->
  rotateFaceletArrayClockwise
    (rotateFaceletArrayClockwise
       (rotateFaceletArrayClockwise (rotateFaceletArrayClockwise a))) = a /\
  rotateFaceletArrayClockwise (rotateFaceletArrayClockwise a) =
    rotateFaceletArrayCounterClockwise (rotateFaceletArrayCounterClockwise a) /\
  rotateFaceletArrayClockwise
    (rotateFaceletArrayClockwise (rotateFaceletArrayClockwise a)) =
    rotateFaceletArrayCounterClockwise a.
Proof. intros H. nine_slots a H. split; [|split]; reflexivity. Qed.

Lemma rotate_powers_witness :
  List.length [Num 0; Num 1; Num 2; Num 3; Num 4; Num 5; Null; Undefined; Num 8] = 9 /\
  rotateFaceletArrayClockwise
    (rotateFaceletArrayClockwise
       (rotateFaceletArrayClockwise
          [Num 0; Num 1; Num 2; Num 3; Num 4; Num 5; Null; Undefined; Num 8])) =
  rotateFaceletArrayCounterClockwise
    [Num 0; Num 1; Num 2; Num 3; Num 4; Num 5; Null; Undefined; Num 8].
Proof.
  split; [reflexivity|].
  exact (proj2 (proj2 (rotate_powers
    [Num 0; Num 1; Num 2; Num 3; Num 4; Num 5; Null; Undefined; Num 8] eq_refl))).
Defined.

(** X3. A rotation only rearranges the nine slots: its result is a
    permutation of its argument. *)
Theorem rotate_Permutation (a : array) :
  List.length a = 9 ->
  Permutation (rotateFaceletArrayClockwise a) a /\
  Permutation (rotateFaceletArrayCounterClockwise a) a.
Proof.
  intros H. nine_slots a H. split; cbv; permute_explicit.
Qed.

Lemma rotate_Permutation_witness :
  List.length (fill 9 (Num 3)) = 9 /\
  (Permutation (rotateFaceletArrayClockwise (fill 9 (Num 3))) (fill 9 (Num 3)) /\
   Permutation (rotateFaceletArrayCounterClockwise (fill 9 (Num 3))) (fill 9 (Num 3))).
Proof.
  split; [reflexivity|].
  exact (rotate_Permutation (fill 9 (Num 3)) eq_refl).
Defined.

(** X4. Whatever array they are given, the rotations return nine slots;
    when the argument has fewer than nine, the slots read past its end
    come out as [undefined]. *)
Theorem rotate_short_array (a : array) :
  List.length (rotateFaceletArrayClockwise a) = 9 /\
  List.length (rotateFaceletArrayCounterClockwise a) = 9 /\
  (List.length a < 9 ->
   In Undefined (rotateFaceletArrayClockwise a) /\
   In Undefined (rotateFaceletArrayCounterClockwise a)).
Proof.
  split; [reflexivity|]. split; [reflexivity|].
  intros H.
  do 9 (destruct a as [|? a];
        [split; cbv; repeat (first [left; reflexivity | right]) |]).
  simpl in H. lia.
Qed.

Lemma rotate_short_array_witness :
  List.length [Num 0; Num 1; Num 2] < 9 /\
  In Undefined (rotateFaceletArrayClockwise [Num 0; Num 1; Num 2]).
Proof.
  assert (H : List.length [Num 0; Num 1; Num 2] < 9) by (simpl; lia).
  split; [exact H|].
  exact (proj1 (proj2 (proj2 (rotate_short_array [Num 0; Num 1; Num 2])) H)).
Defined.

(** ** How moves compose *)

Lemma applyMoves_app (ms1 ms2 : list string) (s : cube) :
  applyMoves (ms1 ++ ms2) s = applyMoves ms2 (applyMoves ms1 s).
Proof. unfold applyMoves. apply fold_left_app. Qed.

Lemma wellFormed_applyMoves (ms : list string) (s : cube) :
  wellFormed s = true -> wellFormed (applyMoves ms s) = true.
Proof.
  revert s. induction ms as [|m ms IH]; intros s H; simpl.
  - exact H.
  - apply IH, wellFormed_applyMove, H.
Qed.

(** X5. Playing any sequence of move symbols and then the inverse
    symbols in reverse order gives back the state one started from. *)
Theorem sequence_round_trip (ms : list string) (s : cube) :
  wellFormed s = true ->
  Forall (fun m => In m basicMoves) ms ->
  applyMoves (map inverseMove (rev ms)) (applyMoves ms s) = s.
Proof.
  intros Hwf Hms. revert s Hwf.
  induction Hms as [|m ms Hm _ IH]; intros s Hwf.
  - reflexivity.
  - simpl rev. rewrite map_app, applyMoves_app. simpl map.
    change (applyMoves (m :: ms) s)
      with (applyMoves ms (applyMoveToCubeState m s)).
    rewrite (IH _ (wellFormed_applyMove m s Hwf)).
    apply inverse_law_wellFormed; assumption.
Qed.

Lemma sequence_round_trip_witness :
  wellFormed swappedState = true /\
  Forall (fun m => In m basicMoves) scrambleSequence /\
  applyMoves (map inverseMove (rev scrambleSequence))
    (applyMoves scrambleSequence swappedState) = swappedState.
Proof.
  assert (Hms : Forall (fun m => In m basicMoves) scrambleSequence).
  { unfold scrambleSequence. repeat (constructor; [simpl; tauto|]). constructor. }
  split; [reflexivity | split; [exact Hms|]].
  exact (sequence_round_trip scrambleSequence swappedState eq_refl Hms).
Defined.

(** X6. Three quarter turns of a face are the same as one inverse
    turn. *)
Theorem three_turns_inverse (m : string) (s : cube) :
  wellFormed s = true -> In m basicMoves ->
  applyMoves [m; m; m] s = applyMoveToCubeState (inverseMove m) s.
Proof.
  intros H Hm. canonical s H. each_move Hm; reflexivity.
Qed.

Lemma three_turns_inverse_witness :
  wellFormed swappedState = true /\ In "D'" basicMoves /\
  applyMoves ["D'"; "D'"; "D'"] swappedState =
  applyMoveToCubeState (inverseMove "D'") swappedState.
Proof.
  assert (Hm : In "D'" basicMoves) by (simpl; tauto).
  split; [reflexivity | split; [exact Hm|]].
  exact (three_turns_inverse "D'" swappedState eq_refl Hm).
Defined.

(** X7. Turns of opposite faces commute: U or U' with D or D', R or R'
    with L or L', F or F' with B or B'. *)
Theorem opposite_moves_commute (a b : string) (s : cube) :
  wellFormed s = true -> In (a, b) oppositeMoves ->
  applyMoveToCubeState a (applyMoveToCubeState b s) =
  applyMoveToCubeState b (applyMoveToCubeState a s).
Proof.
  intros H Hab. canonical s H.
  unfold oppositeMoves in Hab. simpl in Hab.
  repeat (destruct Hab as [Hab | Hab]; [injection Hab as <- <-; reflexivity|]).
  contradiction Hab.
Qed.

Lemma opposite_moves_commute_witness :
  wellFormed (applyMoves scrambleSequence solvedState) = true /\
  In ("R'", "L") oppositeMoves /\
  applyMoveToCubeState "R'"
    (applyMoveToCubeState "L" (applyMoves scrambleSequence solvedState)) =
  applyMoveToCubeState "L"
    (applyMoveToCubeState "R'" (applyMoves scrambleSequence solvedState)).
Proof.
  assert (Hab : In ("R'", "L") oppositeMoves) by (simpl; tauto).
  split; [vm_compute; reflexivity | split; [exact Hab|]].
  exact (opposite_moves_commute "R'" "L"
           (applyMoves scrambleSequence solvedState) eq_refl Hab).
Defined.

Lemma inverseMove_basic (m : string) :
  In m basicMoves ->
  In (inverseMove m) basicMoves /\ inverseMove (inverseMove m) = m.
Proof.
  intros Hm. each_move Hm; (split; [simpl; tauto | reflexivity]).
Qed.

(** X8. Each of the twelve moves is a bijection on the states of six
    faces of nine numbers: it never maps two of them to the same state,
    and every such state is the image of one. *)
Theorem move_bijective (m : string) :
  In m basicMoves ->
  (forall s1 s2 : cube,
     wellFormed s1 = true -> wellFormed s2 = true ->
     applyMoveToCubeState m s1 = applyMoveToCubeState m s2 -> s1 = s2) /\
  (forall s : cube,
     wellFormed s = true ->
     exists s0 : cube,
       wellFormed s0 = true /\ applyMoveToCubeState m s0 = s).
Proof.
  intros Hm. split.
  - intros s1 s2 H1 H2 E.
    rewrite <- (inverse_law_wellFormed m s1 H1 Hm).
    rewrite <- (inverse_law_wellFormed m s2 H2 Hm).
    now rewrite E.
  - intros s H. exists (applyMoveToCubeState (inverseMove m) s). split.
    + apply wellFormed_applyMove, H.
    + destruct (inverseMove_basic m Hm) as [Hi Hii].
      rewrite <- Hii at 1.
      apply inverse_law_wellFormed; assumption.
Qed.

Lemma move_bijective_witness :
  In "F" basicMoves /\
  exists s0 : cube,
    wellFormed s0 = true /\ applyMoveToCubeState "F" s0 = swappedState.
Proof.
  assert (Hm : In "F" basicMoves) by (simpl; tauto).
  split; [exact Hm|].
  exact (proj2 (move_bijective "F" Hm) swappedState eq_refl).
Defined.

(** X9. A move leaves the face opposite to the one it turns exactly as
    it was. *)
Theorem move_opposite_face_untouched (m : string) (f : faceName) (s : cube) :
  wellFormed s = true -> In m basicMoves -> moveFace m = Some f ->
  face (applyMoveToCubeState m s) (oppositeFace f) = face s (oppositeFace f).
Proof.
  intros H Hm Hf. canonical s H.
  each_move Hm; cbv in Hf; injection Hf as <-; reflexivity.
Qed.

Lemma move_opposite_face_untouched_witness :
  wellFormed (applyMoves scrambleSequence solvedState) = true /\
  In "B'" basicMoves /\ moveFace "B'" = Some B /\
  face (applyMoveToCubeState "B'" (applyMoves scrambleSequence solvedState))
       (oppositeFace B) =
  face (applyMoves scrambleSequence solvedState) (oppositeFace B).
Proof.
  assert (Hm : In "B'" basicMoves) by (simpl; tauto).
  split; [vm_compute; reflexivity | split; [exact Hm | split; [reflexivity|]]].
  exact (move_opposite_face_untouched "B'" B
           (applyMoves scrambleSequence solvedState) eq_refl Hm eq_refl).
Defined.

(** ** Invariants of the reachable states *)

Lemma hasColorIndices_applyMove (m : string) (s : cube) :
  wellFormed s = true -> hasColorIndices s = true ->
  hasColorIndices (applyMoveToCubeState m s) = true.
Proof.
  intros Hwf Hc. unfold hasColorIndices in *.
  rewrite forallb_forall in *. intros v Hv. apply Hc.
  apply (Permutation_in v (facelets_applyMove m s Hwf)), Hv.
Qed.

(** X10. Whatever string it is given, the move engine maps a state of
    six faces of nine colour indices to such a state. *)
Theorem move_keeps_state_shape (m : string) (s : cube) :
  wellFormed s = true -> hasColorIndices s = true ->
  wellFormed (applyMoveToCubeState m s) = true /\
  hasColorIndices (applyMoveToCubeState m s) = true.
Proof.
  intros Hwf Hc. split.
  - apply wellFormed_applyMove, Hwf.
  - apply hasColorIndices_applyMove; assumption.
Qed.

Lemma move_keeps_state_shape_witness :
  wellFormed swappedState = true /\ hasColorIndices swappedState = true /\
  wellFormed (applyMoveToCubeState "R2" swappedState) = true /\
  hasColorIndices (applyMoveToCubeState "R2" swappedState) = true.
Proof.
  split; [reflexivity | split; [reflexivity|]].
  exact (move_keeps_state_shape "R2" swappedState eq_refl eq_refl).
Defined.

Lemma standardCenters_applyMove (m : string) (s : cube) :
  wellFormed s = true -> In m basicMoves ->
  standardCenters s -> standardCenters (applyMoveToCubeState m s).
Proof.
  intros Hwf Hm Hc f. rewrite <- (Hc f).
  canonical s Hwf. each_move Hm; destruct f; reflexivity.
Qed.

Lemma legal_facts (s : cube) :
  legal s ->
  wellFormed s = true /\ hasColorIndices s = true /\
  colorBalanced s /\ standardCenters s.
Proof.
  induction 1 as [|m s Hm _ (Hwf & Hc & Hb & Hs)].
  - split; [reflexivity | split; [reflexivity | split]].
    + unfold colorBalanced, colorIndices. repeat constructor.
    + intros f. reflexivity.
  - split; [apply wellFormed_applyMove, Hwf | split; [|split]].
    + apply hasColorIndices_applyMove; assumption.
    + unfold colorBalanced in *.
      induction Hb as [|c cs Hcount _ IH]; constructor.
      * rewrite (countColor_applyMove c m s Hwf). exact Hcount.
      * exact IH.
    + apply standardCenters_applyMove; assumption.
Qed.

(** X11. Every state reachable from the solved state by the twelve moves
    has six faces of nine colour indices, holds each colour exactly nine
    times, and has the centres 0, 1, 2, 3, 4, 5 on U, D, F, B, R, L. *)
Theorem legal_invariants (s : cube) :
  legal s ->
  wellFormed s = true /\ hasColorIndices s = true /\
  colorBalanced s /\ standardCenters s.
Proof. exact (legal_facts s). Qed.

Lemma legal_applyMoves (ms : list string) (s : cube) :
  Forall (fun m => In m basicMoves) ms -> legal s -> legal (applyMoves ms s).
Proof.
  intros Hms. revert s. induction Hms as [|m ms Hm _ IH]; intros s Hs.
  - exact Hs.
  - apply (IH (applyMoveToCubeState m s)), legal_move; assumption.
Qed.

Lemma scrambleSequence_basic : Forall (fun m => In m basicMoves) scrambleSequence.
Proof.
  unfold scrambleSequence. repeat (constructor; [simpl; tauto|]). constructor.
Qed.

Lemma solutionSequence_basic : Forall (fun m => In m basicMoves) solutionSequence.
Proof.
  unfold solutionSequence. simpl rev.
  repeat (constructor; [simpl; tauto|]). constructor.
Qed.

Lemma legal_invariants_witness :
  legal (applyMoves scrambleSequence solvedState) /\
  (wellFormed (applyMoves scrambleSequence solvedState) = true /\
   hasColorIndices (applyMoves scrambleSequence solvedState) = true /\
   colorBalanced (applyMoves scrambleSequence solvedState) /\
   standardCenters (applyMoves scrambleSequence solvedState)).
Proof.
  assert (Hs : legal (applyMoves scrambleSequence solvedState)).
  { apply legal_applyMoves; [exact scrambleSequence_basic | apply legal_solved]. }
  split; [exact Hs|].
  exact (legal_invariants (applyMoves scrambleSequence solvedState) Hs).
Defined.

(** X12. On every reachable state the three readings of solved agree:
    [checkSolved] accepts it, every face matches its own centre, the
    state is the solved state. *)
Theorem legal_checkSolved (s : cube) :
  legal s ->
  (checkSolved s = true <-> facesMatchCenters s) /\
  (checkSolved s = true <-> s = solvedState).
Proof.
  intros Hs. destruct (legal_facts s Hs) as (Hwf & _ & _ & Hc).
  split.
  - rewrite checkSolved_spec. unfold facesMatchCenters. split.
    + intros H f i Hi.
      rewrite (H f i Hi), (Hc f). apply solvedState_uniform, Hi.
    + intros H f i Hi.
      rewrite (H f i Hi), (Hc f). symmetry. apply solvedState_uniform, Hi.
  - canonical s Hwf. split.
    + intros E. cbn in E. rewrite !andb_true_iff, !Z.eqb_eq in E.
      decompose [and] E. subst. reflexivity.
    + intros E. rewrite E. reflexivity.
Qed.

Lemma legal_checkSolved_witness :
  legal (applyMoveToCubeState "U" solvedState) /\
  ((checkSolved (applyMoveToCubeState "U" solvedState) = true <->
    facesMatchCenters (applyMoveToCubeState "U" solvedState)) /\
   (checkSolved (applyMoveToCubeState "U" solvedState) = true <->
    applyMoveToCubeState "U" solvedState = solvedState)).
Proof.
  assert (Hs : legal (applyMoveToCubeState "U" solvedState)).
  { apply legal_move; [simpl; tauto | apply legal_solved]. }
  split; [exact Hs|].
  exact (legal_checkSolved (applyMoveToCubeState "U" solvedState) Hs).
Defined.

(** ** Edge behaviour of the solved-state check *)

Lemma aget_past_end (a : array) (i : nat) :
  List.length a <= i -> aget a i = Undefined.
Proof.
  intros H. unfold aget. destruct (a !! i) as [v|] eqn:E; [|reflexivity].
  apply lookup_lt_Some in E. lia.
Qed.

Lemma aget_take (a : array) (n i : nat) :
  i < n -> aget (take n a) i = aget a i.
Proof.
  intros H. unfold aget. pose proof (lookup_take_lt a n i H) as E.
  unfold array in *. now rewrite E.
Qed.

Lemma solvedState_slot_number (f : faceName) (i : nat) :
  i < 9 -> exists c : Z, aget (face solvedState f) i = Num c.
Proof.
  intros Hi.
  do 9 (destruct i as [|i]; [destruct f; eexists; reflexivity|]). lia.
Qed.

(** X13. A state one of whose faces has fewer than nine slots is never
    accepted: the slot read past the end is [undefined], which differs
    from every colour. *)
Theorem checkSolved_short_face (s : cube) (f : faceName) :
  List.length (face s f) < 9 -> checkSolved s = false.
Proof.
  intros Hlen. destruct (checkSolved s) eqn:E; [|reflexivity].
  exfalso. rewrite checkSolved_spec in E.
  specialize (E f (List.length (face s f)) Hlen).
  rewrite aget_past_end in E by lia.
  destruct (solvedState_slot_number f _ Hlen) as [c Hc].
  rewrite Hc in E. discriminate E.
Qed.

Lemma checkSolved_short_face_witness :
  List.length (face (setFace L (fill 8 (Num 5)) solvedState) L) < 9 /\
  checkSolved (setFace L (fill 8 (Num 5)) solvedState) = false.
Proof.
  assert (H : List.length (face (setFace L (fill 8 (Num 5)) solvedState) L) < 9)
    by (simpl; lia).
  split; [exact H|].
  exact (checkSolved_short_face (setFace L (fill 8 (Num 5)) solvedState) L H).
Defined.

(** X14. [checkSolved] looks at the first nine slots of each face and
    at nothing else: cutting every face down to nine slots does not
    change its answer. *)
Theorem checkSolved_firstNine (s : cube) :
  checkSolved (firstNine s) = checkSolved s.
Proof.
  apply eq_true_iff_eq. rewrite !checkSolved_spec.
  assert (E : forall f i, i < 9 ->
            aget (face (firstNine s) f) i = aget (face s f) i).
  { intros f i Hi. destruct f; simpl; apply aget_take, Hi. }
  split; intros H f i Hi.
  - rewrite <- (E f i Hi). apply H, Hi.
  - rewrite (E f i Hi). apply H, Hi.
Qed.

(** ** The button handlers *)

Lemma replay_cubeState (ms : list string) (g : globals) :
  cubeState (fold_left replayStep ms g) = applyMoves ms (cubeState g).
Proof.
  revert g. induction ms as [|m ms IH]; intros g; simpl.
  - reflexivity.
  - rewrite IH. reflexivity.
Qed.

Lemma replay_moveHistory (ms : list string) (g : globals) :
  moveHistory (fold_left replayStep ms g) = moveHistory g ++ ms.
Proof.
  revert g. induction ms as [|m ms IH]; intros g; simpl.
  - now rewrite app_nil_r.
  - rewrite IH. simpl. now rewrite <- app_assoc.
Qed.

Lemma legal_applyMove_any (m : string) (s : cube) :
  legal s -> legal (applyMoveToCubeState m s).
Proof.
  intros Hs. destruct (in_dec string_dec m basicMoves) as [Hm | Hm].
  - apply legal_move; assumption.
  - rewrite (applyMove_not_basic m s Hm).
    rewrite (jsonCopy_wellFormed s (legal_wellFormed s Hs)). exact Hs.
Qed.

(** The two replaying handlers, once their guard lets them run. *)
Lemma scrambleCube_runs (g : globals) :
  isAnimating g = false ->
  scrambleCube g =
  {| cubeState := applyMoves scrambleSequence (cubeState g);
     moveHistory := scrambleSequence;
     isSolved := checkSolved (applyMoves scrambleSequence (cubeState g));
     isAnimating := false |}.
Proof.
  intros Ha. unfold scrambleCube. rewrite Ha. cbv zeta.
  rewrite replay_cubeState, replay_moveHistory.
  cbn [cubeState moveHistory app]. reflexivity.
Qed.

Lemma solveCube_runs (g : globals) :
  isAnimating g = false -> isSolved g = false ->
  solveCube g =
  {| cubeState := applyMoves solutionSequence (cubeState g);
     moveHistory := moveHistory g ++ solutionSequence;
     isSolved := checkSolved (applyMoves solutionSequence (cubeState g));
     isAnimating := false |}.
Proof.
  intros Ha Hs. unfold solveCube. rewrite Ha, Hs. cbv zeta.
  cbn [orb]. rewrite replay_cubeState, replay_moveHistory.
  cbn [cubeState moveHistory]. reflexivity.
Qed.

Lemma pageInvariant_handle (g : globals) (e : event) :
  pageInvariant g -> pageInvariant (handle g e).
Proof.
  intros (Ha & Hf & Hl). destruct e as [| | |m]; cbn [handle].
  - rewrite (scrambleCube_runs g Ha). unfold pageInvariant.
    cbn [cubeState isSolved isAnimating].
    split; [reflexivity | split; [reflexivity|]].
    apply legal_applyMoves; [exact scrambleSequence_basic | exact Hl].
  - destruct (isSolved g) eqn:Es.
    + unfold solveCube. rewrite Ha, Es. cbn [orb].
      split; [exact Ha | split; [rewrite Es; exact Hf | exact Hl]].
    + rewrite (solveCube_runs g Ha Es). unfold pageInvariant.
      cbn [cubeState isSolved isAnimating].
      split; [reflexivity | split; [reflexivity|]].
      apply legal_applyMoves; [exact solutionSequence_basic | exact Hl].
  - unfold resetCube. rewrite Ha. unfold pageInvariant.
    cbn [cubeState isSolved isAnimating].
    split; [reflexivity | split; [vm_compute; reflexivity | apply legal_solved]].
  - unfold applyMove. rewrite Ha. unfold pageInvariant.
    cbn [cubeState isSolved isAnimating].
    split; [reflexivity | split; [reflexivity|]].
    apply legal_applyMove_any, Hl.
Qed.

Lemma afterEvents_pageInvariant (es : list event) :
  pageInvariant (afterEvents es).
Proof.
  unfold afterEvents.
  assert (H : pageInvariant initialGlobals).
  { split; [reflexivity | split; [reflexivity | apply legal_solved]]. }
  revert H. generalize initialGlobals.
  induction es as [|e es IH]; intros g H; simpl.
  - exact H.
  - apply IH, pageInvariant_handle, H.
Qed.

(** X15. After any series of button presses on the freshly loaded page
    (with any strings passed to [applyMove]), no animation is flagged as
    running, the Solved flag says what [checkSolved] says of the cube, and
    the cube is in a state reachable from the solved state by the twelve
    moves. *)
Theorem page_invariant (es : list event) :
  isAnimating (afterEvents es) = false /\
  isSolved (afterEvents es) = checkSolved (cubeState (afterEvents es)) /\
  legal (cubeState (afterEvents es)).
Proof. exact (afterEvents_pageInvariant es). Qed.

(** X16. The move history replays to the cube state as long as the
    cube is scrambled only from the solved state: [applyMove], [solveCube]
    and [resetCube] keep the two in step, [scrambleCube] does so when the
    cube is solved.  [scrambleCube] empties the history without resetting
    the cube, so scrambling after a single U leaves a history that does not
    replay to the cube. *)
Theorem history_replays (g : globals) :
  historyReplays g ->
  (forall m : string, historyReplays (applyMove m g)) /\
  historyReplays (solveCube g) /\
  historyReplays (resetCube g) /\
  (cubeState g = solvedState -> historyReplays (scrambleCube g)) /\
  ~ historyReplays (afterEvents [PressMove "U"; PressScramble]).
Proof.
  unfold historyReplays. intros H.
  split; [|split; [|split; [|split]]].
  - intros m. unfold applyMove. destruct (isAnimating g); [exact H|].
    cbn [cubeState moveHistory]. rewrite applyMoves_app, <- H. reflexivity.
  - destruct (isAnimating g) eqn:Ha; [unfold solveCube; rewrite Ha; exact H|].
    destruct (isSolved g) eqn:Es.
    + unfold solveCube. rewrite Ha, Es. exact H.
    + rewrite (solveCube_runs g Ha Es). cbn [cubeState moveHistory].
      rewrite applyMoves_app, <- H. reflexivity.
  - unfold resetCube. destruct (isAnimating g); [exact H|].
    cbn [cubeState moveHistory]. vm_compute. reflexivity.
  - intros Hs.
    destruct (isAnimating g) eqn:Ha; [unfold scrambleCube; rewrite Ha; exact H|].
    rewrite (scrambleCube_runs g Ha). cbn [cubeState moveHistory].
    rewrite Hs. reflexivity.
  - vm_compute. discriminate.
Qed.

Lemma history_replays_witness :
  historyReplays (afterEvents [PressScramble; PressMove "U"]) /\
  historyReplays (solveCube (afterEvents [PressScramble; PressMove "U"])).
Proof.
  assert (H : historyReplays (afterEvents [PressScramble; PressMove "U"])).
  { vm_compute. reflexivity. }
  split; [exact H|].
  exact (proj1 (proj2
    (history_replays (afterEvents [PressScramble; PressMove "U"]) H))).
Defined.

(** X17. Whenever, after any series of button presses, the cube passes
    [checkSolved], pressing Solve changes nothing: neither the cube nor
    the move history. *)
Theorem solveCube_on_solved (es : list event) :
  checkSolved (cubeState (afterEvents es)) = true ->
  solveCube (afterEvents es) = afterEvents es.
Proof.
  intros H. destruct (afterEvents_pageInvariant es) as (_ & Hf & _).
  unfold solveCube. rewrite Hf, H, orb_true_r. reflexivity.
Qed.

Lemma solveCube_on_solved_witness :
  checkSolved (cubeState (afterEvents [PressMove "R"; PressMove "R'"])) = true /\
  solveCube (afterEvents [PressMove "R"; PressMove "R'"]) =
  afterEvents [PressMove "R"; PressMove "R'"].
Proof.
  split; [vm_compute; reflexivity|].
  exact (solveCube_on_solved [PressMove "R"; PressMove "R'"] eq_refl).
Defined.

(** ** Painting the pieces *)

Lemma axis_range (x : Z) : In x axis <-> (-1 <= x <= 1)%Z.
Proof.
  unfold axis. simpl. split.
  - intros [<- | [<- | [<- | []]]]; lia.
  - intros H.
    assert (E : x = (-1)%Z \/ x = 0%Z \/ x = 1%Z) by lia.
    destruct E as [-> | [-> | ->]]; tauto.
Qed.

Lemma onFace_coordinate (f : faceName) (x y z : Z) :
  onFace f x y z = true ->
  match f with
  | U => y = 1 | D => y = -1 | F => z = 1
  | B => z = -1 | R => x = 1 | L => x = -1
  end%Z.
Proof. destruct f; simpl; apply Z.eqb_eq. Qed.

(** X18. For a piece lying on a face, the facelet index computed by
    [updateCubeColors] is one of 0 to 8, it is 4 exactly for the centre
    piece of the face, and two pieces of the same face never share an
    index. *)
Theorem faceletIndex_layout (f : faceName) (x y z : Z) :
  In x axis -> In y axis -> In z axis -> onFace f x y z = true ->
  (0 <= faceletIndex f x y z <= 8)%Z /\
  (faceletIndex f x y z = 4%Z <-> (Z.abs x + Z.abs y + Z.abs z = 1)%Z) /\
  (forall x' y' z' : Z,
     In x' axis -> In y' axis -> In z' axis -> onFace f x' y' z' = true ->
     faceletIndex f x' y' z' = faceletIndex f x y z ->
     (x', y', z') = (x, y, z)).
Proof.
  rewrite !axis_range. intros Hx Hy Hz Hf.
  apply onFace_coordinate in Hf.
  split; [|split].
  - destruct f; simpl; lia.
  - destruct f; simpl; lia.
  - intros x' y' z'. rewrite !axis_range. intros Hx' Hy' Hz' Hf' E.
    apply onFace_coordinate in Hf'.
    assert (x' = x /\ y' = y /\ z' = z) as (-> & -> & ->)
      by (destruct f; simpl in E; lia).
    reflexivity.
Qed.

Lemma faceletIndex_layout_witness :
  In 1%Z axis /\ In (-1)%Z axis /\ In 0%Z axis /\
  onFace R 1 (-1) 0 = true /\
  (0 <= faceletIndex R 1 (-1) 0 <= 8)%Z.
Proof.
  assert (H1 : In 1%Z axis) by (simpl; tauto).
  assert (H2 : In (-1)%Z axis) by (simpl; tauto).
  assert (H3 : In 0%Z axis) by (simpl; tauto).
  split; [exact H1 | split; [exact H2 | split; [exact H3 | split; [reflexivity|]]]].
  exact (proj1 (faceletIndex_layout R 1 (-1) 0 H1 H2 H3 eq_refl)).
Defined.

(** Proves [NoDup] of an explicit list of distinct constants. *)
Ltac nodup_explicit :=
  repeat (constructor;
          [ simpl; intros H;
            repeat (destruct H as [H | H]; [discriminate H|]); exact H |]);
  constructor.

Lemma createRubiksCubePieces_value : createRubiksCubePieces = createdScene.
Proof. vm_compute. reflexivity. Qed.

(** X19. [createRubiksCubePieces] makes 26 pieces, one for every
    position with coordinates in -1, 0, 1 other than the middle of the
    cube.  The six entries of a piece's material array all refer to one
    and the same material object, and no two pieces share a material. *)
Theorem createRubiksCubePieces_pieces :
  List.length (cubePieces createRubiksCubePieces) = 26 /\
  List.length (materials createRubiksCubePieces) = 26 /\
  List.NoDup (map userData (cubePieces createRubiksCubePieces)) /\
  (forall x y z : Z,
     In (x, y, z) (map userData (cubePieces createRubiksCubePieces)) <->
     In x axis /\ In y axis /\ In z axis /\ (x, y, z) <> (0, 0, 0)%Z) /\
  Forall (fun piece =>
            exists m : nat,
              material piece = replicate 6 m /\
              m < List.length (materials createRubiksCubePieces))
         (cubePieces createRubiksCubePieces) /\
  List.NoDup (map material (cubePieces createRubiksCubePieces)).
Proof.
  rewrite createRubiksCubePieces_value. unfold createdScene.
  cbn [cubePieces materials map].
  split; [reflexivity|]. split; [reflexivity|].
  split; [|split; [|split]].
  - nodup_explicit.
  - intros x y z. split.
    + intros H. simpl in H.
      repeat (destruct H as [H | H];
              [injection H as <- <- <-;
               split; [|split; [|split]];
               [simpl; tauto | simpl; tauto | simpl; tauto | discriminate]|]).
      contradiction H.
    + intros (Hx & Hy & Hz & Hne).
      unfold axis in Hx, Hy, Hz. simpl in Hx, Hy, Hz.
      destruct Hx as [<- | [<- | [<- | []]]];
      destruct Hy as [<- | [<- | [<- | []]]];
      destruct Hz as [<- | [<- | [<- | []]]];
      try (exfalso; apply Hne; reflexivity);
      simpl; repeat (first [left; reflexivity | right]).
  - repeat (constructor; [eexists; split; [reflexivity | simpl; lia]|]).
    constructor.
  - nodup_explicit.
Qed.

(** *** What [updateCubeColors] leaves on a piece *)

Lemma faceletIndex_range (f : faceName) (x y z : Z) :
  In x axis -> In y axis -> In z axis -> onFace f x y z = true ->
  (0 <= faceletIndex f x y z <= 8)%Z.
Proof.
  rewrite !axis_range. intros Hx Hy Hz Hf.
  apply onFace_coordinate in Hf. destruct f; simpl; lia.
Qed.

Lemma isColor_COLORS_MAP (v : jsval) :
  isColor v = true -> is_Some (COLORS_MAP v).
Proof.
  destruct v as [n| |]; simpl; try discriminate.
  rewrite andb_true_iff, !Z.leb_le. intros [H0 H5].
  assert (E : (n = 0 \/ n = 1 \/ n = 2 \/ n = 3 \/ n = 4 \/ n = 5)%Z) by lia.
  destruct E as [-> | [-> | [-> | [-> | [-> | ->]]]]]; eexists; reflexivity.
Qed.

Lemma face_slot_color (s : cube) (f : faceName) (i : nat) :
  wellFormed s = true -> hasColorIndices s = true -> i < 9 ->
  isColor (aget (face s f) i) = true.
Proof.
  intros Hwf Hc Hi. canonical s Hwf.
  unfold hasColorIndices in Hc. rewrite forallb_forall in Hc.
  apply Hc.
  do 9 (destruct i as [|i];
        [destruct f; cbv; repeat (first [left; reflexivity | right])|]).
  lia.
Qed.

Lemma faceletColor_defined (s : cube) (f : faceName) (x y z : Z) :
  wellFormed s = true -> hasColorIndices s = true ->
  In x axis -> In y axis -> In z axis -> onFace f x y z = true ->
  is_Some (faceletColor s f x y z).
Proof.
  intros Hwf Hc Hx Hy Hz Hf.
  pose proof (faceletIndex_range f x y z Hx Hy Hz Hf) as Hr.
  unfold faceletColor, agetZ.
  destruct (Z.ltb_spec (faceletIndex f x y z) 0) as [Hneg | _]; [lia|].
  apply isColor_COLORS_MAP, face_slot_color; [assumption | assumption | lia].
Qed.

Lemma paintFace_off (s : cube) (f : faceName) (piece : mesh) (heap : list Z)
    (x y z : Z) :
  userData piece = (x, y, z) -> onFace f x y z = false ->
  paintFace s f piece heap = Some heap.
Proof. intros Hu Hf. unfold paintFace. now rewrite Hu, Hf. Qed.

Lemma paintFace_on (s : cube) (f : faceName) (piece : mesh) (heap : list Z)
    (x y z : Z) (m : nat) (c : Z) :
  userData piece = (x, y, z) -> material piece = replicate 6 m ->
  onFace f x y z = true -> faceletColor s f x y z = Some c ->
  paintFace s f piece heap = Some (<[m := c]> heap).
Proof.
  intros Hu Hm Hf Hc. unfold paintFace. rewrite Hu, Hf, Hm.
  unfold faceletColor in Hc. rewrite Hc.
  destruct f; reflexivity.
Qed.

(** Setting the six entries of the material array to the dark colour
    sets the one material they share. *)
Lemma reset_shared_material (heap : list Z) (m : nat) :
  fold_left (fun heap mat => colorSet heap mat (Some 0x333333%Z))
            (replicate 6 m) heap = <[m := 0x333333%Z]> heap.
Proof. simpl. now rewrite !list_insert_insert_eq. Qed.

(** Paint one face of the piece, whichever way its test goes. *)
Ltac paint_next s f x y z Hwf Hc Hx Hy Hz Hu Hm :=
  let E := fresh "E" in
  let c := fresh "c" in
  let Hcol := fresh "Hcol" in
  destruct (onFace f x y z) eqn:E;
  [ destruct (faceletColor_defined s f x y z Hwf Hc Hx Hy Hz E) as [c Hcol];
    rewrite (paintFace_on s f _ _ x y z _ c Hu Hm E Hcol)
  | rewrite (paintFace_off s f _ _ x y z Hu E) ];
  cbn [mbind option_bind].

Lemma updatePiece_spec (s : cube) (heap : list Z) (piece : mesh)
    (x y z : Z) (f : faceName) (m : nat) :
  wellFormed s = true -> hasColorIndices s = true ->
  In x axis -> In y axis -> In z axis ->
  userData piece = (x, y, z) -> material piece = replicate 6 m ->
  lastFace x y z = Some f ->
  exists c : Z,
    faceletColor s f x y z = Some c /\
    updatePiece s heap piece = Some (<[m := c]> heap).
Proof.
  intros Hwf Hc Hx Hy Hz Hu Hm Hlast.
  unfold updatePiece. cbv zeta. rewrite Hm, reset_shared_material.
  paint_next s U x y z Hwf Hc Hx Hy Hz Hu Hm;
  paint_next s D x y z Hwf Hc Hx Hy Hz Hu Hm;
  paint_next s F x y z Hwf Hc Hx Hy Hz Hu Hm;
  paint_next s B x y z Hwf Hc Hx Hy Hz Hu Hm;
  paint_next s R x y z Hwf Hc Hx Hy Hz Hu Hm;
  paint_next s L x y z Hwf Hc Hx Hy Hz Hu Hm;
  rewrite ?list_insert_insert_eq;
  unfold lastFace in Hlast; simpl onFace in *;
  repeat match goal with
         | E : Z.eqb _ _ = _ |- _ => rewrite E in Hlast; clear E
         end;
  first [ discriminate Hlast
        | injection Hlast as <-; eexists; (split; [eassumption | reflexivity]) ].
Qed.

Lemma pieceOf_length (heap1 heap2 : list Z) (m : nat) (piece : mesh) :
  List.length heap1 = List.length heap2 ->
  pieceOf heap1 m piece -> pieceOf heap2 m piece.
Proof.
  intros E (x & y & z & Hu & Hx & Hy & Hz & Hl & Hm & Hlt).
  exists x, y, z. rewrite <- E. tauto.
Qed.

Lemma replicate6_inj (m1 m2 : nat) : replicate 6 m1 = replicate 6 m2 -> m1 = m2.
Proof. intros H. now injection H. Qed.

(** The pieces are painted one after the other; as no two of them share
    a material, what a piece was painted last stays. *)
Lemma updatePieces_spec (s : cube) :
  wellFormed s = true -> hasColorIndices s = true ->
  forall (pieces : list mesh) (heap : list Z),
    Forall (fun piece => exists m, pieceOf heap m piece) pieces ->
    List.NoDup (map material pieces) ->
    exists heap' : list Z,
      updatePieces s pieces heap = Some heap' /\
      List.length heap' = List.length heap /\
      (forall piece x y z f m,
         In piece pieces -> userData piece = (x, y, z) ->
         lastFace x y z = Some f -> material piece = replicate 6 m ->
         heap' !! m = faceletColor s f x y z) /\
      (forall m, ~ In (replicate 6 m) (map material pieces) ->
                 heap' !! m = heap !! m).
Proof.
  intros Hwf Hc pieces.
  induction pieces as [|p0 rest IH]; intros heap Hall Hnd.
  - exists heap. split; [reflexivity | split; [reflexivity | split]].
    + intros piece x y z f m [].
    + reflexivity.
  - inversion Hall as [|? ? (m0 & x0 & y0 & z0 & Hu0 & Hx & Hy & Hz & Hl0 & Hm0 & Hlt0) Hrest];
      subst.
    inversion Hnd as [|? ? Hnotin Hnd']; subst.
    destruct (lastFace x0 y0 z0) as [f0|] eqn:El0; [clear Hl0 | contradiction Hl0; reflexivity].
    destruct (updatePiece_spec s heap p0 x0 y0 z0 f0 m0 Hwf Hc Hx Hy Hz Hu0 Hm0 El0)
      as (c0 & Hc0 & Hup).
    assert (Hlen1 : List.length (<[m0 := c0]> heap) = List.length heap)
      by apply length_insert.
    destruct (IH (<[m0 := c0]> heap)) as (heap' & Hrun & Hlen & Hin & Hout).
    { eapply Forall_impl; [exact Hrest|].
      intros piece [m Hp]. exists m.
      apply (pieceOf_length heap); [symmetry; exact Hlen1 | exact Hp]. }
    { exact Hnd'. }
    exists heap'. split; [|split; [|split]].
    + simpl. rewrite Hup. exact Hrun.
    + now rewrite Hlen.
    + intros piece x y z f m [<- | Hp] Hu Hl Hm.
      * rewrite Hu0 in Hu. injection Hu as <- <- <-.
        rewrite Hm0 in Hm. apply replicate6_inj in Hm. subst m.
        rewrite El0 in Hl. injection Hl as <-.
        rewrite Hout by (rewrite <- Hm0; exact Hnotin).
        rewrite Hc0. apply list_lookup_insert_eq, Hlt0.
      * apply (Hin piece); assumption.
    + intros m Hm. simpl in Hm.
      rewrite Hout by tauto.
      apply list_lookup_insert_ne. intros ->. apply Hm. left. exact Hm0.
Qed.

Lemma createdScene_pieces :
  Forall (fun piece => exists m, pieceOf (materials createdScene) m piece)
         (cubePieces createdScene).
Proof.
  unfold createdScene. cbn [cubePieces materials].
  repeat (constructor;
          [ eexists; eexists; eexists; eexists;
            split; [reflexivity|];
            split; [simpl; tauto|]; split; [simpl; tauto|];
            split; [simpl; tauto|];
            split; [discriminate|]; split; [reflexivity | simpl; lia] |]).
  constructor.
Qed.

Lemma createdScene_materials_NoDup :
  List.NoDup (map material (cubePieces createdScene)).
Proof. unfold createdScene. cbn [cubePieces map material]. nodup_explicit. Qed.

(** X20. On a state of six faces of nine colour indices,
    [updateCubeColors] runs through on the pieces of
    [createRubiksCubePieces], and afterwards every one of the six sides
    of a piece is drawn in one and the same colour: that of the facelet
    of the last face, in the order U, D, F, B, R, L, that the piece lies
    on.  A piece on the left face shows its left facelet on all sides,
    and only the two pieces in the middle of the top and bottom layers
    show their Up or Down facelet. *)
Theorem updateCubeColors_last_face (s : cube) :
  wellFormed s = true -> hasColorIndices s = true ->
  exists sc : scene,
    updateCubeColors s createRubiksCubePieces = Some sc /\
    cubePieces sc = cubePieces createRubiksCubePieces /\
    forall (piece : mesh) (x y z : Z) (f : faceName) (k : nat),
      In piece (cubePieces sc) -> userData piece = (x, y, z) ->
      lastFace x y z = Some f -> k < 6 ->
      is_Some (faceletColor s f x y z) /\
      sideColor sc piece k = faceletColor s f x y z.
Proof.
  intros Hwf Hc. rewrite createRubiksCubePieces_value.
  destruct (updatePieces_spec s Hwf Hc (cubePieces createdScene)
              (materials createdScene) createdScene_pieces
              createdScene_materials_NoDup)
    as (heap' & Hrun & Hlen & Hin & _).
  exists (Scene heap' (cubePieces createdScene)).
  split; [unfold updateCubeColors; rewrite Hrun; reflexivity|].
  split; [reflexivity|].
  intros piece x y z f k Hp Hu Hl Hk. cbn [cubePieces] in Hp.
  pose proof createdScene_pieces as Hall.
  rewrite Forall_forall in Hall.
  destruct (Hall piece) as (m & x' & y' & z' & Hu' & Hx & Hy & Hz & _ & Hm & _).
  { apply list_elem_of_In, Hp. }
  rewrite Hu in Hu'. injection Hu' as <- <- <-.
  assert (Hon : onFace f x y z = true).
  { unfold lastFace in Hl.
    repeat match type of Hl with
           | (if ?b then _ else _) = _ =>
               destruct b eqn:?; [injection Hl as <-; assumption|]
           end.
    discriminate Hl. }
  split; [apply faceletColor_defined; assumption|].
  unfold sideColor. rewrite Hm.
  assert (Hk' : replicate 6 m !! k = Some m).
  { do 6 (destruct k as [|k]; [reflexivity|]). lia. }
  rewrite Hk'. cbn [mbind option_bind materials].
  apply (Hin piece x y z f m); assumption.
Qed.

Lemma updateCubeColors_last_face_witness :
  wellFormed solvedState = true /\ hasColorIndices solvedState = true /\
  exists sc : scene,
    updateCubeColors solvedState createRubiksCubePieces = Some sc /\
    cubePieces sc = cubePieces createRubiksCubePieces /\
    forall (piece : mesh) (x y z : Z) (f : faceName) (k : nat),
      In piece (cubePieces sc) -> userData piece = (x, y, z) ->
      lastFace x y z = Some f -> k < 6 ->
      is_Some (faceletColor solvedState f x y z) /\
      sideColor sc piece k = faceletColor solvedState f x y z.
Proof.
  split; [reflexivity | split; [reflexivity|]].
  exact (updateCubeColors_last_face solvedState eq_refl eq_refl).
Defined.

(** ** The React viewer *)

(** X21. Whatever state it is given, [generateCubePieces] builds 26
    pieces carrying 54 stickers in all, and the sticker on the side of a
    piece that shows face [f] is there exactly when the piece lies on [f]
    and has the colour the solved state gives to [f]: the viewer draws
    the solved cube. *)
Theorem generateCubePieces_draws_solved (s : cube) :
  List.length (generateCubePieces s) = 26 /\
  List.length (stickers (generateCubePieces s)) = 54 /\
  forall (piece : cubePieceProps) (x y z : Z) (f : faceName),
    In piece (generateCubePieces s) -> pieceKey piece = (x, y, z) ->
    colors piece !! sideOf f =
      Some (if onFace f x y z
            then match aget (face solvedState f) 4 with
                 | Num c => Some c
                 | _ => None
                 end
            else None).
Proof.
  split; [reflexivity|]. split; [reflexivity|].
  intros piece x y z f Hp Hk.
  change (generateCubePieces s) with (generateCubePieces solvedState) in Hp.
  vm_compute in Hp.
  repeat (destruct Hp as [<- | Hp];
          [injection Hk as <- <- <-; destruct f; reflexivity|]).
  contradiction Hp.
Qed.

(** ** The move symbols of the control panel *)

(** X22. The strings the move engine acts on are exactly the twelve
    symbols of [basicMoves]: a string changes the solved state if and
    only if it is one of them, and the twelve are pairwise different. *)
Theorem basicMoves_exactly_handled (m : string) :
  (In m basicMoves <-> applyMoveToCubeState m solvedState <> solvedState) /\
  List.NoDup basicMoves.
Proof.
  split.
  - split.
    + intros Hm. each_move Hm; vm_compute; discriminate.
    + intros H. destruct (in_dec string_dec m basicMoves) as [Hm | Hm];
        [exact Hm|].
      exfalso. apply H. rewrite (applyMove_not_basic m solvedState Hm).
      reflexivity.
  - unfold basicMoves. nodup_explicit.
Qed.

(** ** What the Solve button solves *)

Lemma inverse_sequence_basic (ms : list string) :
  Forall (fun m => In m basicMoves) ms ->
  Forall (fun m => In m basicMoves) (map inverseMove (rev ms)) /\
  map inverseMove (rev (map inverseMove (rev ms))) = ms.
Proof.
  induction 1 as [|m ms Hm _ [IH1 IH2]].
  - split; [constructor | reflexivity].
  - destruct (inverseMove_basic m Hm) as [Hi Hii]. split.
    + simpl rev. rewrite map_app. apply Forall_app. split; [exact IH1|].
      simpl. constructor; [exact Hi | constructor].
    + simpl rev. rewrite map_app, rev_app_distr, map_app. simpl.
      now rewrite Hii, IH2.
Qed.

Lemma applyMoves_undo (ms : list string) (s : cube) :
  wellFormed s = true -> Forall (fun m => In m basicMoves) ms ->
  applyMoves (map inverseMove (rev ms)) (applyMoves ms s) = s.
Proof.
  intros Hwf Hms. revert s Hwf.
  induction Hms as [|m ms Hm _ IH]; intros s Hwf.
  - reflexivity.
  - simpl rev. rewrite map_app, applyMoves_app. simpl map.
    change (applyMoves (m :: ms) s)
      with (applyMoves ms (applyMoveToCubeState m s)).
    rewrite (IH _ (wellFormed_applyMove m s Hwf)).
    apply inverse_law_wellFormed; assumption.
Qed.

Lemma checkSolved_wellFormed (s : cube) :
  wellFormed s = true -> (checkSolved s = true <-> s = solvedState).
Proof.
  intros H. canonical s H. split.
  - intros E. cbn in E. rewrite !andb_true_iff, !Z.eqb_eq in E.
    decompose [and] E. subst. reflexivity.
  - intros E. rewrite E. reflexivity.
Qed.

(** X23. The replay of [solveCube] ends solved from one state only: the
    state obtained from the solved state by undoing the solution sequence.
    The same holds of any sequence of move symbols in place of the
    solution sequence. *)
Theorem replay_solves_one_state (ms : list string) (s : cube) :
  wellFormed s = true -> Forall (fun m => In m basicMoves) ms ->
  (checkSolved (applyMoves ms s) = true <->
   s = applyMoves (map inverseMove (rev ms)) solvedState).
Proof.
  intros Hwf Hms.
  rewrite (checkSolved_wellFormed _ (wellFormed_applyMoves ms s Hwf)).
  destruct (inverse_sequence_basic ms Hms) as [Hinv Hback].
  split.
  - intros E. rewrite <- E. symmetry. apply applyMoves_undo; assumption.
  - intros ->. rewrite <- Hback at 1.
    apply applyMoves_undo; [reflexivity | exact Hinv].
Qed.

Lemma replay_solves_one_state_witness :
  wellFormed (applyMoves scrambleSequence solvedState) = true /\
  Forall (fun m => In m basicMoves) solutionSequence /\
  (checkSolved (applyMoves solutionSequence
                  (applyMoves scrambleSequence solvedState)) = true <->
   applyMoves scrambleSequence solvedState =
   applyMoves (map inverseMove (rev solutionSequence)) solvedState).
Proof.
  split; [vm_compute; reflexivity | split; [exact solutionSequence_basic|]].
  exact (replay_solves_one_state solutionSequence
           (applyMoves scrambleSequence solvedState) eq_refl
           solutionSequence_basic).
Defined.

(** ** Move sequence reduction *)

(** The inner loop stops with a count between the one it started from
    and the end of the list. *)
Lemma countRun_total (moves : list string) (i : nat) (cur : string) :
  forall (fuel count : nat),
    i + count <= List.length moves ->
    List.length moves - (i + count) < fuel ->
    exists r : nat,
      countRun fuel moves i cur count = Some r /\
      count <= r /\ i + r <= List.length moves.
Proof.
  induction fuel as [|fuel IH]; intros count Hle Hfuel; [lia|].
  simpl.
  destruct (Nat.ltb_spec (i + count) (List.length moves)) as [Hlt | Hge].
  - destruct (moves !! (i + count)) as [move|]; simpl.
    + destruct (String.eqb move cur).
      * destruct (IH (count + 1)) as (r & Hr & H1 & H2); [lia | lia |].
        exists r. split; [exact Hr | lia].
      * exists count. split; [reflexivity | lia].
    + exists count. split; [reflexivity | lia].
  - exists count. split; [reflexivity | lia].
Qed.

Lemma length_reduceRun (optimized : list string) (cur : string) (count : nat) :
  List.length (reduceRun optimized cur count) <= S (List.length optimized).
Proof.
  unfold reduceRun.
  repeat match goal with
         | |- context [if ?b then _ else _] => destruct b
         end;
    rewrite ?length_app; simpl; lia.
Qed.

Lemma optimizeLoop_total (moves : list string) :
  forall (fuel i : nat) (optimized : list string),
    i <= List.length moves ->
    List.length moves - i < fuel ->
    exists r : list string,
      optimizeLoop fuel moves i optimized = Some r /\
      List.length r <= List.length optimized + (List.length moves - i).
Proof.
  induction fuel as [|fuel IH]; intros i optimized Hle Hfuel; [lia|].
  simpl.
  destruct (Nat.ltb_spec i (List.length moves)) as [Hlt | Hge].
  - destruct (lookup_lt_is_Some_2 moves i Hlt) as [cur Hcur].
    rewrite Hcur. cbn [mbind option_bind].
    destruct (countRun_total moves i cur (S (List.length moves)) 1)
      as (count & Hcount & H1 & H2); [lia | lia |].
    simpl in Hcount. simpl. rewrite Hcount. cbn [mbind option_bind].
    destruct (IH (i + count) (reduceRun optimized cur count))
      as (r & Hr & Hlen); [lia | lia |].
    exists r. split; [exact Hr|].
    pose proof (length_reduceRun optimized cur count). lia.
  - exists optimized. split; [reflexivity | lia].
Qed.

(** X24. [optimize_move_sequence] returns for every list of moves, and
    what it returns is never longer than the list. *)
Theorem optimize_move_sequence_total (moves : list string) :
  exists r : list string,
    optimize_move_sequence moves = Some r /\
    List.length r <= List.length moves.
Proof.
  destruct (optimizeLoop_total moves (S (List.length moves)) 0 [])
    as (r & Hr & Hlen); [lia | lia |].
  exists r. split; [exact Hr | simpl in Hlen; lia].
Qed.

Lemma optimize_move_sequence_total_witness :
  exists r : list string,
    optimize_move_sequence ["R"; "R"; "R"] = Some r /\
    List.length r <= List.length ["R"; "R"; "R"].
Proof. exact (optimize_move_sequence_total ["R"; "R"; "R"]). Defined.

Lemma countRun_replicate (n : nat) (m : string) :
  forall (fuel count : nat),
    count <= n -> n - count < fuel ->
    countRun fuel (replicate n m) 0 m count = Some n.
Proof.
  induction fuel as [|fuel IH]; intros count Hle Hfuel; [lia|].
  simpl. rewrite length_replicate.
  destruct (Nat.ltb_spec count n) as [Hlt | Hge].
  - rewrite (lookup_replicate_2 n m count Hlt), String.eqb_refl. simpl.
    apply IH; lia.
  - simpl. f_equal. lia.
Qed.

Lemma optimize_replicate (n : nat) (m : string) :
  optimize_move_sequence (replicate n m) = Some (reduceRun [] m n).
Proof.
  unfold optimize_move_sequence. rewrite length_replicate.
  destruct n as [|n].
  - reflexivity.
  - cbn [optimizeLoop]. rewrite length_replicate.
    change (Nat.ltb 0 (S n)) with true. cbn iota.
    change (replicate (S n) m !! 0) with (Some m).
    cbn [mbind option_bind].
    rewrite (countRun_replicate (S n) m (S (S n)) 1) by lia.
    cbn [mbind option_bind]. cbn [Nat.add].
    rewrite Nat.ltb_irrefl. reflexivity.
Qed.

(** X25. A run of [n] copies of one move is reduced as a whole, by the
    remainder of [n] modulo 4: to nothing for 0, to the move for 1, to
    the move followed by the character 2 for 2, and to the move followed
    by an apostrophe for 3 (for three R this is the R' of the docstring;
    for three R' it is R followed by two apostrophes). *)
Theorem optimize_move_sequence_run (n : nat) (m : string) :
  (n mod 4 = 0 -> optimize_move_sequence (replicate n m) = Some []) /\
  (n mod 4 = 1 -> optimize_move_sequence (replicate n m) = Some [m]) /\
  (n mod 4 = 2 ->
   optimize_move_sequence (replicate n m) = Some [String.append m "2"]) /\
  (n mod 4 = 3 ->
   optimize_move_sequence (replicate n m) = Some [String.append m "'"]).
Proof.
  rewrite optimize_replicate. unfold reduceRun.
  split; [|split; [|split]]; intros ->; reflexivity.
Qed.

Lemma optimize_move_sequence_run_witness :
  7 mod 4 = 3 /\
  optimize_move_sequence (replicate 7 "R'") = Some [String.append "R'" "'"].
Proof.
  split; [reflexivity|].
  exact (proj2 (proj2 (proj2 (optimize_move_sequence_run 7 "R'"))) eq_refl).
Defined.

Lemma optimizeLoop_noRepeat (moves : list string) :
  noRepeat moves ->
  forall (fuel i : nat) (optimized : list string),
    i <= List.length moves ->
    List.length moves - i < fuel ->
    optimizeLoop fuel moves i optimized = Some (optimized ++ drop i moves).
Proof.
  intros Hnr.
  induction fuel as [|fuel IH]; intros i optimized Hle Hfuel; [lia|].
  cbn [optimizeLoop].
  destruct (Nat.ltb_spec i (List.length moves)) as [Hlt | Hge].
  - destruct (lookup_lt_is_Some_2 moves i Hlt) as [cur Hcur].
    rewrite Hcur. cbn [mbind option_bind].
    assert (Hcount : countRun (S (List.length moves)) moves i cur 1 = Some 1).
    { cbn [countRun]. rewrite Nat.add_1_r.
      destruct (moves !! S i) as [next|] eqn:Hnext.
      - assert (Hne : next <> cur).
        { intros ->. exact (Hnr i cur cur Hcur Hnext eq_refl). }
        apply String.eqb_neq in Hne. rewrite Hne, andb_false_r. reflexivity.
      - rewrite andb_false_r. reflexivity. }
    rewrite Hcount. cbn [mbind option_bind].
    change (reduceRun optimized cur 1) with (optimized ++ [cur]).
    rewrite (IH (i + 1) (optimized ++ [cur])) by lia.
    rewrite Nat.add_1_r, (drop_S moves cur i Hcur), <- app_assoc.
    reflexivity.
  - rewrite drop_ge by lia. now rewrite app_nil_r.
Qed.

(** X26. A list in which no move is followed by an equal move is
    returned as it is. *)
Theorem optimize_move_sequence_noRepeat (moves : list string) :
  noRepeat moves -> optimize_move_sequence moves = Some moves.
Proof.
  intros Hnr. unfold optimize_move_sequence.
  rewrite (optimizeLoop_noRepeat moves Hnr) by lia.
  reflexivity.
Qed.

Lemma optimize_move_sequence_noRepeat_witness :
  noRepeat scrambleSequence /\
  optimize_move_sequence scrambleSequence = Some scrambleSequence.
Proof.
  assert (H : noRepeat scrambleSequence).
  { intros i a b Ha Hb.
    do 15 (destruct i as [|i]; [cbv in Ha, Hb; congruence|]).
    discriminate Ha. }
  split; [exact H|].
  exact (optimize_move_sequence_noRepeat scrambleSequence H).
Defined.

(** ** The Python class of the documentation and the page *)

Lemma isGrid_inv (face : grid) :
  isGrid face = true ->
  exists a0 a1 a2 a3 a4 a5 a6 a7 a8 : Z,
    face = [[a0; a1; a2]; [a3; a4; a5]; [a6; a7; a8]].
Proof.
  unfold isGrid. intros H. apply andb_prop in H. destruct H as [Hlen Hrows].
  do 3 (destruct face as [|[|? [|? [|? [|? ?]]]] face];
        try discriminate Hlen; try discriminate Hrows; simpl in Hrows).
  destruct face; [|discriminate Hlen].
  do 9 eexists. reflexivity.
Qed.

(** Replace a Python cube of six three-by-three faces by explicit
    grids. *)
Ltac canonical_py c H :=
  let Hu := fresh in let Hd := fresh in let Hf := fresh in
  let Hb := fresh in let Hr := fresh in let Hl := fresh in
  unfold wellFormedPy in H; rewrite !andb_true_iff in H;
  destruct H as [[[[[Hu Hd] Hf] Hb] Hr] Hl];
  destruct c as [? ? ? ? ? ?]; simpl in Hu, Hd, Hf, Hb, Hr, Hl;
  apply isGrid_inv in Hu; apply isGrid_inv in Hd; apply isGrid_inv in Hf;
  apply isGrid_inv in Hb; apply isGrid_inv in Hr; apply isGrid_inv in Hl;
  destruct Hu as (? & ? & ? & ? & ? & ? & ? & ? & ? & ->);
  destruct Hd as (? & ? & ? & ? & ? & ? & ? & ? & ? & ->);
  destruct Hf as (? & ? & ? & ? & ? & ? & ? & ? & ? & ->);
  destruct Hb as (? & ? & ? & ? & ? & ? & ? & ? & ? & ->);
  destruct Hr as (? & ? & ? & ? & ? & ? & ? & ? & ? & ->);
  destruct Hl as (? & ? & ? & ? & ? & ? & ? & ? & ? & ->).

(** X27. On a three-by-three face the Python [rotate_face_clockwise]
    returns, and read row by row its result is what
    [rotateFaceletArrayClockwise] of the page makes of the face read row
    by row: the two helpers are the same rotation. *)
Theorem rotate_face_clockwise_agrees (face : grid) :
  isGrid face = true ->
  exists face' : grid,
    rotate_face_clockwise face = Some face' /\
    isGrid face' = true /\
    rowMajor face' = rotateFaceletArrayClockwise (rowMajor face).
Proof.
  intros H. destruct (isGrid_inv face H)
    as (a0 & a1 & a2 & a3 & a4 & a5 & a6 & a7 & a8 & ->).
  eexists. split; [reflexivity|]. split; reflexivity.
Qed.

Lemma rotate_face_clockwise_agrees_witness :
  isGrid [[0; 1; 2]; [3; 4; 5]; [0; 1; 2]]%Z = true /\
  exists face' : grid,
    rotate_face_clockwise [[0; 1; 2]; [3; 4; 5]; [0; 1; 2]]%Z = Some face' /\
    isGrid face' = true /\
    rowMajor face' =
      rotateFaceletArrayClockwise (rowMajor [[0; 1; 2]; [3; 4; 5]; [0; 1; 2]]%Z).
Proof.
  split; [reflexivity|].
  exact (rotate_face_clockwise_agrees [[0; 1; 2]; [3; 4; 5]; [0; 1; 2]]%Z eq_refl).
Defined.



Lemma is_solved_canonical (self : RubiksCube) :
  wellFormedPy self = true -> standardCenters (toCubeState self) ->
  is_solved self = Some (checkSolved (toCubeState self)).
Proof.
  intros H Hc. canonical_py self H.
  pose proof (Hc U) as HU. pose proof (Hc D) as HD. pose proof (Hc F) as HF.
  pose proof (Hc B) as HB. pose proof (Hc R) as HR. pose proof (Hc L) as HL.
  cbv in HU, HD, HF, HB, HR, HL.
  injection HU as ->. injection HD as ->. injection HF as ->.
  injection HB as ->. injection HR as ->. injection HL as ->.
  clear Hc. cbn.
  repeat match goal with
         | |- context [Z.eqb ?a ?b] =>
             destruct (Z.eqb a b); cbn; try reflexivity
         end.
Qed.

(** X29. On a cube of six three-by-three faces whose centres are 0, 1,
    2, 3, 4, 5 on U, D, F, B, R, L, the centre-relative [is_solved] of
    the documentation returns what the fixed comparison of [checkSolved]
    returns on the state the cube stands for; on the freshly made cube
    both say solved. *)
Theorem is_solved_agrees (self : RubiksCube) :
  wellFormedPy self = true -> standardCenters (toCubeState self) ->
  is_solved self = Some (checkSolved (toCubeState self)) /\
  is_solved newRubiksCube = Some true /\
  toCubeState newRubiksCube = solvedState.
Proof.
  intros H Hc. split; [apply is_solved_canonical; assumption|].
  split; reflexivity.
Qed.

Lemma is_solved_agrees_witness :
  wellFormedPy newRubiksCube = true /\
  standardCenters (toCubeState newRubiksCube) /\
  is_solved newRubiksCube = Some (checkSolved (toCubeState newRubiksCube)).
Proof.
  assert (Hc : standardCenters (toCubeState newRubiksCube)).
  { intros f. destruct f; reflexivity. }
  split; [reflexivity | split; [exact Hc|]].
  exact (proj1 (is_solved_agrees newRubiksCube eq_refl Hc)).
Defined.
